(** * Lamfox: a decorator-driven request router for AWS Lambda

    Shallow embedding of the router ([Router], its path matcher, parameter
    binder, guard and middleware pipeline) and of the error translator
    ([errorHandler]), with the properties of the routing and dispatch engine
    stated over it.

    Conventions.
    - JavaScript strings are [string]s (byte strings; non-ASCII text is
      carried as its UTF-8 bytes).
    - The objects the router uses as string-keyed maps ([event.headers],
      [event.queryStringParameters], [event.pathParameters]) are
      [gmap string string], which holds their own properties; a nullable
      one is an [option]. They are plain objects: a key they do not hold
      reads as what [Object.prototype] has under it.
    - Platform services the source calls but does not define ([RegExp],
      [JSON.parse], [JSON.stringify], [Reflect.getMetadata]) are modelled in
      the modules [JSString], [RegExp], [JS] and [JSON]; what
      [Reflect.getMetadata] returns is taken as data attached to the
      controller and to its handlers (the decorators that record it, and
      the lookup [invokeHandler] makes for a bound method, are modelled
      apart, in [Decorators]).
    - [async] functions run to completion one after the other; a computation
      is a function of the dispatch state that returns the new state and
      either the thrown error or the value.
    - What a callback throws is an [Error] object with a string [name] and
      a string [message] (see [ErrorHandler.Error]). *)

From Stdlib Require Import Ascii String ZArith List Bool.
From stdpp Require Import base option list strings pretty gmap.

Set Warnings "-register-all".

(** ** JavaScript string primitives used by the router *)

Module JSString.

Definition isDigit (c : ascii) : bool :=
  let n := nat_of_ascii c in (48 <=? n)%nat && (n <=? 57)%nat.

Definition isUpper (c : ascii) : bool :=
  let n := nat_of_ascii c in (65 <=? n)%nat && (n <=? 90)%nat.

Definition isLower (c : ascii) : bool :=
  let n := nat_of_ascii c in (97 <=? n)%nat && (n <=? 122)%nat.

(** The character class [[a-zA-Z0-9]]. *)
Definition isAlnum (c : ascii) : bool := isLower c || isUpper c || isDigit c.

(** [s.includes(needle)]. *)
Fixpoint includes (s needle : string) : bool :=
  String.prefix needle s ||
  match s with
  | EmptyString => false
  | String _ r => includes r needle
  end.

(** [s.slice(1)]. *)
Definition slice1 (s : string) : string :=
  match s with
  | EmptyString => EmptyString
  | String _ r => r
  end.

(** A string of ASCII characters. *)
Fixpoint isAscii (s : string) : bool :=
  match s with
  | EmptyString => true
  | String c r => (nat_of_ascii c <? 128)%nat && isAscii r
  end.

Definition lowerChar (c : ascii) : ascii :=
  if isUpper c then ascii_of_nat (nat_of_ascii c + 32) else c.

(** [s.toLowerCase()] for a string of ASCII characters (header names
    are ASCII tokens): the letters [A-Z] become [a-z]. The bytes of other
    characters are kept, where the platform would lower-case letters
    outside ASCII as well; what is stated of [toLowerCase] below is stated
    for ASCII strings. *)
Fixpoint toLowerCase (s : string) : string :=
  match s with
  | EmptyString => EmptyString
  | String c r => String (lowerChar c) (toLowerCase r)
  end.

(** Does the regular expression [/:([a-zA-Z0-9]+)/] match at a position
    whose first character is [c] and whose remaining text is [r]? *)
Definition startsKey (c : ascii) (r : string) : bool :=
  Ascii.eqb c ":" &&
  match r with
  | String d _ => isAlnum d
  | EmptyString => false
  end.

(** [s.replace(/:([a-zA-Z0-9]+)/g, '([^/]+)')], scanning left to right;
    [inKey] holds while the scan is inside the (greedy) run of
    alphanumerics of the placeholder being replaced. *)
Fixpoint replaceKeysFrom (inKey : bool) (s : string) : string :=
  match s with
  | EmptyString => EmptyString
  | String c r =>
      if inKey && isAlnum c then replaceKeysFrom true r
      else if startsKey c r then "([^/]+)" +:+ replaceKeysFrom true r
      else String c (replaceKeysFrom false r)
  end.

Definition replaceKeys (s : string) : string := replaceKeysFrom false s.

(** [s.match(/:([a-zA-Z0-9]+)/g) || []]: every match of the placeholder
    expression, left to right, each as the matched text (with its
    colon). [cur] is the match being read, if any. *)
Fixpoint matchKeysFrom (cur : option string) (s : string) : list string :=
  match s with
  | EmptyString =>
      match cur with
      | Some k => [k]
      | None => []
      end
  | String c r =>
      let restart :=
        if startsKey c r then matchKeysFrom (Some ":") r
        else matchKeysFrom None r in
      match cur with
      | Some k =>
          if isAlnum c then matchKeysFrom (Some (k +:+ String c EmptyString)) r
          else k :: restart
      | None => restart
      end
  end.

Definition matchKeys (s : string) : list string := matchKeysFrom None s.

(** [parts.join(',')]. *)
Definition joinComma (parts : list string) : string :=
  match parts with
  | [] => EmptyString
  | p :: ps => fold_left (λ acc q, acc +:+ "," +:+ q) ps p
  end.

End JSString.

(** ** The regular expressions the router builds

    [convertToRegExp] only ever builds sources of the shape
    [^ item* $] where an item is the capture group [([^/]+)] or a
    character of the template. The model covers the sources in which those
    characters are not regular-expression operators; [RegExp.new] answers
    [None] for every other source (the platform would either throw a
    [SyntaxError] or build an expression with operators that are not
    modelled here). *)

Module RegExp.

Inductive Node : Type :=
| Lit (c : ascii)   (* a character that matches itself *)
| Group.            (* the capture group ([^/]+) *)

Record t : Type := mk {
  source : string;        (* the text given to [new RegExp] *)
  nodes : list Node;      (* what stands between [^] and [$] *)
}.

(** Characters with no special meaning in a pattern. *)
Definition isPlain (c : ascii) : bool :=
  negb (existsb (Ascii.eqb c)
          ["\"; "^"; "$"; "."; "*"; "+"; "?"; "("; ")"; "["; "]"; "{"; "}"; "|"]%char).

(** The items up to the closing [$]. *)
Fixpoint parseNodes (s : string) : option (list Node) :=
  match s with
  | EmptyString => None
  | String "$" EmptyString => Some []
  | String "(" (String "[" (String "^" (String "/"
      (String "]" (String "+" (String ")" r)))))) =>
      ns ← parseNodes r; Some (Group :: ns)
  | String c r =>
      if isPlain c then ns ← parseNodes r; Some (Lit c :: ns) else None
  end.

(** [new RegExp(src)]. *)
Definition new (src : string) : option t :=
  match src with
  | String "^" body => ns ← parseNodes body; Some (mk src ns)
  | _ => None
  end.

(** The capture group [([^/]+)] followed by the continuation [k]: the
    group is greedy, so the longer run is tried first and the engine
    backtracks to a shorter one when the continuation fails. [acc] is the
    text captured so far. *)
Fixpoint matchGroup (k : string → option (list string))
    (acc s : string) : option (list string) :=
  match s with
  | EmptyString => None
  | String c r =>
      if Ascii.eqb c "/" then None
      else
        let acc' := acc +:+ String c EmptyString in
        match matchGroup k acc' r with
        | Some caps => Some caps
        | None =>
            match k r with
            | Some caps => Some (acc' :: caps)
            | None => None
            end
        end
  end.

(** Match the items against the whole of [s] (the expression is anchored
    at both ends); the result lists the captures. *)
Fixpoint matchNodes (ns : list Node) : string → option (list string) :=
  match ns with
  | [] => λ s, match s with EmptyString => Some [] | _ => None end
  | Lit c :: ns' => λ s,
      match s with
      | String d r => if Ascii.eqb c d then matchNodes ns' r else None
      | EmptyString => None
      end
  | Group :: ns' => matchGroup (matchNodes ns') EmptyString
  end.

(** [s.match(re)] for an expression without the [g] flag: [null] or the
    array whose element 0 is the matched text and whose element [i] is
    the capture of group [i]. *)
Definition match_ (s : string) (re : t) : option (list string) :=
  caps ← matchNodes (nodes re) s; Some (s :: caps).

(** The source as [toString] prints it: a solidus outside a character
    class and the line terminators are escaped. *)
Fixpoint escapeSource (inClass : bool) (s : string) : string :=
  match s with
  | EmptyString => EmptyString
  | String c r =>
      if Ascii.eqb c "/" && negb inClass then "\/" +:+ escapeSource inClass r
      else if Ascii.eqb c "010" then "\n" +:+ escapeSource inClass r
      else if Ascii.eqb c "013" then "\r" +:+ escapeSource inClass r
      else if Ascii.eqb c "[" then String c (escapeSource true r)
      else if Ascii.eqb c "]" then String c (escapeSource false r)
      else String c (escapeSource inClass r)
  end.

(** [re.toString()]. *)
Definition toString (re : t) : string :=
  "/" +:+ escapeSource false (source re) +:+ "/".

End RegExp.

(** ** JavaScript values and JSON *)

Module JS.

(** The values a handler argument or a response payload can hold. A
    number is kept as its decimal literal (its floating-point value plays
    no part in routing). An object lists its own properties in the order
    JavaScript enumerates them: the keys that are array indices in
    ascending order, then the other keys in order of creation. Objects
    are plain objects: what they do not hold themselves they inherit from
    [Object.prototype].

    [Builtin k] is the member [k] of [Object.prototype] (a built-in
    function; [Object.prototype] itself for [__proto__]). [Member v k]
    is the value of [v[k]] for an array, string, number or boolean [v] and
    a key that the model does not resolve: whatever the prototype chain of
    [v] holds under [k], [undefined] when it holds nothing. *)
Inductive Value : Type :=
| Undefined
| Null
| Bool (b : bool)
| Number (lit : string)
| Str (s : string)
| Array (elems : list Value)
| Object (props : list (string * Value))
| Builtin (k : string)
| Member (owner : Value) (k : string).

(** The decimal numeral [k] as a number, if [k] is made of digits. *)
Fixpoint indexOfDigits (acc : N) (k : string) : option N :=
  match k with
  | EmptyString => Some acc
  | String c r =>
      if JSString.isDigit c
      then indexOfDigits (10 * acc + N.of_nat (nat_of_ascii c - 48)) r
      else None
  end.

(** The array index [k] stands for, if it is one: the canonical numeral
    of an integer below [2^32 - 1]. *)
Definition arrayIndex (k : string) : option N :=
  match k with
  | EmptyString => None
  | String "0" EmptyString => Some 0%N
  | String "0" _ => None
  | _ =>
      i ← indexOfDigits 0 k;
      if (i <? 4294967295)%N then Some i else None
  end.

(** The own property [k] of an object, if it has one. *)
Fixpoint ownProp (props : list (string * Value)) (k : string) : option Value :=
  match props with
  | [] => None
  | (k', v) :: rest => if String.eqb k k' then Some v else ownProp rest k
  end.

(** A new value for the property [k], which keeps its place. *)
Fixpoint replaceProp (props : list (string * Value)) (k : string) (v : Value)
    : list (string * Value) :=
  match props with
  | [] => []
  | (k', v') :: rest =>
      if String.eqb k k' then (k, v) :: rest else (k', v') :: replaceProp rest k v
  end.

(** A new property whose key is the array index [i]: it goes after the
    smaller indices and before everything else. *)
Fixpoint insertIndexed (props : list (string * Value)) (i : N) (k : string)
    (v : Value) : list (string * Value) :=
  match props with
  | [] => [(k, v)]
  | (k', v') :: rest =>
      match arrayIndex k' with
      | Some j =>
          if (j <? i)%N then (k', v') :: insertIndexed rest i k v
          else (k, v) :: props
      | None => (k, v) :: props
      end
  end.

(** [o[k] = v] on the own properties of an object (as [JSON.parse]
    defines the members it reads): an existing property keeps its place,
    a new one goes among the array indices or, for any other key, to the
    end. *)
Definition setProp (props : list (string * Value)) (k : string) (v : Value)
    : list (string * Value) :=
  match ownProp props k with
  | Some _ => replaceProp props k v
  | None =>
      match arrayIndex k with
      | Some i => insertIndexed props i k v
      | None => props ++ [(k, v)]
      end
  end.

(** The names of the members of [Object.prototype]. *)
Definition objectPrototype : list string :=
  ["constructor"; "__defineGetter__"; "__defineSetter__"; "hasOwnProperty";
   "__lookupGetter__"; "__lookupSetter__"; "isPrototypeOf";
   "propertyIsEnumerable"; "toString"; "valueOf"; "__proto__";
   "toLocaleString"].

(** What a plain object gives for a key it does not hold itself. *)
Definition inherited (k : string) : Value :=
  if bool_decide (k ∈ objectPrototype) then Builtin k else Undefined.

(** [o[k]] on a plain object with the own properties [props]. *)
Definition lookupProp (props : list (string * Value)) (k : string) : Value :=
  match ownProp props k with
  | Some v => v
  | None => inherited k
  end.

(** [v[k]] for a value [v] read by [JSON.parse]: [None] stands for the
    [TypeError] that reading a property of [null] throws. Resolved are the
    properties of objects (own or inherited), the elements of arrays and
    their [length]; every other read is left as [Member v k]. *)
Definition getProp (v : Value) (k : string) : option Value :=
  match v with
  | Undefined | Null => None
  | Object props => Some (lookupProp props k)
  | Array elems =>
      Some (match arrayIndex k with
            | Some i =>
                if (i <? N.of_nat (length elems))%N
                then default Undefined (elems !! N.to_nat i)
                else Undefined
            | None =>
                if String.eqb k "length" then Number (pretty (N.of_nat (length elems)))
                else Member v k
            end)
  | _ => Some (Member v k)
  end.

(** The object that shows a string-keyed map to a handler (the order of
    its properties is not modelled). *)
Definition ofMap (m : gmap string string) : Value :=
  Object (prod_map id Str <$> map_to_list m).

(** [String(v)], as a template literal prints [v]. An array prints its
    elements separated by commas, [null] and [undefined] among them as
    nothing; an object prints as [[object Object]] and a built-in function
    as the engine shows native code. The text of a [Member] is not
    modelled (it is printed like [undefined]). *)
Fixpoint toText (v : Value) : string :=
  match v with
  | Undefined => "undefined"
  | Null => "null"
  | Bool true => "true"
  | Bool false => "false"
  | Number lit => lit
  | Str s => s
  | Array elems =>
      let element (e : Value) : string :=
        match e with
        | Undefined | Null => EmptyString
        | _ => toText e
        end in
      JSString.joinComma (map element elems)
  | Object _ => "[object Object]"
  | Builtin k =>
      if String.eqb k "__proto__" then "[object Object]"
      else if String.eqb k "constructor" then "function Object() { [native code] }"
      else "function " +:+ k +:+ "() { [native code] }"
  | Member _ _ => "undefined"
  end.

End JS.

Module JSON.

Import JS.

Definition quoteChar : ascii := "034".

Definition isWhitespace (c : ascii) : bool :=
  existsb (Ascii.eqb c) [" "; "009"; "010"; "013"]%char.

Fixpoint skipWs (s : string) : string :=
  match s with
  | String c r => if isWhitespace c then skipWs r else s
  | EmptyString => s
  end.

(** The longest run of decimal digits at the head of [s], and the rest. *)
Fixpoint takeDigits (s : string) : string * string :=
  match s with
  | String c r =>
      if JSString.isDigit c
      then let '(ds, rest) := takeDigits r in (String c ds, rest)
      else (EmptyString, s)
  | EmptyString => (EmptyString, s)
  end.

(** [int]: a single zero, or a run of digits that does not start with one. *)
Definition parseInt (s : string) : option (string * string) :=
  match s with
  | String "0" r => Some ("0", r)
  | String c _ =>
      if JSString.isDigit c then Some (takeDigits s) else None
  | EmptyString => None
  end.

(** [frac]: nothing, or a point followed by at least one digit. *)
Definition parseFrac (s : string) : option (string * string) :=
  match s with
  | String "." r =>
      match takeDigits r with
      | (EmptyString, _) => None
      | (ds, rest) => Some (String "." ds, rest)
      end
  | _ => Some (EmptyString, s)
  end.

Definition parseExpDigits (pre s : string) : option (string * string) :=
  match takeDigits s with
  | (EmptyString, _) => None
  | (ds, rest) => Some (pre +:+ ds, rest)
  end.

(** [exp]: nothing, or [e]/[E], an optional sign and at least one digit. *)
Definition parseExp (s : string) : option (string * string) :=
  match s with
  | String "e" (String "+" r) => parseExpDigits "e+" r
  | String "e" (String "-" r) => parseExpDigits "e-" r
  | String "E" (String "+" r) => parseExpDigits "E+" r
  | String "E" (String "-" r) => parseExpDigits "E-" r
  | String "e" r => parseExpDigits "e" r
  | String "E" r => parseExpDigits "E" r
  | _ => Some (EmptyString, s)
  end.

Definition parseNumber (s : string) : option (string * string) :=
  let '(sign, s1) :=
    match s with
    | String "-" r => ("-", r)
    | _ => (EmptyString, s)
    end in
  '(i, s2) ← parseInt s1;
  '(f, s3) ← parseFrac s2;
  '(e, s4) ← parseExp s3;
  Some (sign +:+ i +:+ f +:+ e, s4).

Definition hexValue (c : ascii) : option nat :=
  let n := nat_of_ascii c in
  if JSString.isDigit c then Some (n - 48)
  else if (97 <=? n)%nat && (n <=? 102)%nat then Some (n - 87)
  else if (65 <=? n)%nat && (n <=? 70)%nat then Some (n - 55)
  else None.

(** The bytes that carry the code unit [u] of a [\uXXXX] escape (one, two
    or three bytes; the two halves of a surrogate pair are carried one
    after the other). *)
Definition encodeUnit (u : nat) : string :=
  if (u <? 128)%nat then String (ascii_of_nat u) EmptyString
  else if (u <? 2048)%nat then
    String (ascii_of_nat (192 + u / 64))
      (String (ascii_of_nat (128 + u mod 64)) EmptyString)
  else
    String (ascii_of_nat (224 + u / 4096))
      (String (ascii_of_nat (128 + (u / 64) mod 64))
         (String (ascii_of_nat (128 + u mod 64)) EmptyString)).

(** The characters of a string literal after its opening quote, up to and
    including the closing quote. *)
Fixpoint parseChars (s : string) : option (string * string) :=
  match s with
  | EmptyString => None
  | String "\" (String "u" (String h1 (String h2 (String h3 (String h4 r))))) =>
      a ← hexValue h1; b ← hexValue h2; c ← hexValue h3; d ← hexValue h4;
      '(v, rest) ← parseChars r;
      Some (encodeUnit (4096 * a + 256 * b + 16 * c + d) +:+ v, rest)
  | String "\" (String e r) =>
      c ← (if Ascii.eqb e quoteChar then Some quoteChar
           else if Ascii.eqb e "\" then Some "\"%char
           else if Ascii.eqb e "/" then Some "/"%char
           else if Ascii.eqb e "b" then Some "008"%char
           else if Ascii.eqb e "f" then Some "012"%char
           else if Ascii.eqb e "n" then Some "010"%char
           else if Ascii.eqb e "r" then Some "013"%char
           else if Ascii.eqb e "t" then Some "009"%char
           else None);
      '(v, rest) ← parseChars r;
      Some (String c v, rest)
  | String c r =>
      if Ascii.eqb c quoteChar then Some (EmptyString, r)
      else if Ascii.eqb c "\" then None
      else if (nat_of_ascii c <? 32)%nat then None
      else '(v, rest) ← parseChars r; Some (String c v, rest)
  end.

(** A JSON value at the head of [s] (after white space), the elements of
    an array after its first bracket, and the members of an object after
    its first brace. Every call is made with less [fuel]; [2 * length s + 2]
    is more than the recursion can use on [s]. *)
Fixpoint parseValue (fuel : nat) (s : string) : option (Value * string) :=
  match fuel with
  | O => None
  | S fuel' =>
      match skipWs s with
      | String "n" (String "u" (String "l" (String "l" r))) => Some (Null, r)
      | String "t" (String "r" (String "u" (String "e" r))) => Some (Bool true, r)
      | String "f" (String "a" (String "l" (String "s" (String "e" r)))) =>
          Some (Bool false, r)
      | String "[" r =>
          match skipWs r with
          | String "]" r' => Some (Array [], r')
          | _ => '(vs, r') ← parseElements fuel' r; Some (Array vs, r')
          end
      | String "{" r =>
          match skipWs r with
          | String "}" r' => Some (Object [], r')
          | _ => '(ps, r') ← parseMembers fuel' [] r; Some (Object ps, r')
          end
      | String c r =>
          if Ascii.eqb c quoteChar
          then '(v, r') ← parseChars r; Some (Str v, r')
          else '(lit, r') ← parseNumber (String c r); Some (Number lit, r')
      | EmptyString => None
      end
  end
with parseElements (fuel : nat) (s : string) : option (list Value * string) :=
  match fuel with
  | O => None
  | S fuel' =>
      '(v, r) ← parseValue fuel' s;
      match skipWs r with
      | String "," r' => '(vs, r'') ← parseElements fuel' r'; Some (v :: vs, r'')
      | String "]" r' => Some ([v], r')
      | _ => None
      end
  end
with parseMembers (fuel : nat) (acc : list (string * Value)) (s : string)
    : option (list (string * Value) * string) :=
  match fuel with
  | O => None
  | S fuel' =>
      match skipWs s with
      | String c r =>
          if Ascii.eqb c quoteChar then
            '(k, r1) ← parseChars r;
            match skipWs r1 with
            | String ":" r2 =>
                '(v, r3) ← parseValue fuel' r2;
                let acc' := setProp acc k v in
                match skipWs r3 with
                | String "," r4 => parseMembers fuel' acc' r4
                | String "}" r4 => Some (acc', r4)
                | _ => None
                end
            | _ => None
            end
          else None
      | EmptyString => None
      end
  end.

(** [JSON.parse(text)]: [None] stands for the [SyntaxError] it throws. *)
Definition parse (text : string) : option Value :=
  '(v, r) ← parseValue (2 * String.length text + 2) text;
  match skipWs r with
  | EmptyString => Some v
  | _ => None
  end.

Definition hexDigit (n : nat) : ascii :=
  if (n <? 10)%nat then ascii_of_nat (48 + n) else ascii_of_nat (87 + n).

Definition quoteOne (c : ascii) : string :=
  let n := nat_of_ascii c in
  if Ascii.eqb c quoteChar then String "\" (String quoteChar EmptyString)
  else if Ascii.eqb c "\" then "\\"
  else if Ascii.eqb c "008" then "\b"
  else if Ascii.eqb c "012" then "\f"
  else if Ascii.eqb c "010" then "\n"
  else if Ascii.eqb c "013" then "\r"
  else if Ascii.eqb c "009" then "\t"
  else if (n <? 32)%nat then
    "\u00" +:+ String (hexDigit (n / 16)) (String (hexDigit (n mod 16)) EmptyString)
  else String c EmptyString.

Fixpoint quoteBody (s : string) : string :=
  match s with
  | EmptyString => EmptyString
  | String c r => quoteOne c +:+ quoteBody r
  end.

(** [JSON.stringify] of a string: the quoted, escaped text. *)
Definition quote (s : string) : string :=
  String quoteChar (quoteBody s +:+ String quoteChar EmptyString).

(** Does [JSON.stringify] treat [v] as it treats [undefined]? It does so
    with functions, hence with every member of [Object.prototype] but
    [__proto__] (which is [Object.prototype], an object without properties
    to print). What a [Member] prints is not modelled: it is taken as
    [undefined]. *)
Definition omitted (v : Value) : bool :=
  match v with
  | Undefined => true
  | Builtin k => negb (String.eqb k "__proto__")
  | Member _ _ => true
  | _ => false
  end.

(** The text [JSON.stringify] prints for [v], without indentation. An
    [undefined] property is left out of an object and an [undefined]
    element prints as [null]. *)
Fixpoint text (v : Value) : string :=
  match v with
  | Undefined => "null"
  | Null => "null"
  | Bool true => "true"
  | Bool false => "false"
  | Number lit => lit
  | Str s => quote s
  | Array elems => "[" +:+ JSString.joinComma (map text elems) +:+ "]"
  | Object props =>
      let member (p : string * Value) : list string :=
        if omitted (snd p) then []
        else [quote (fst p) +:+ ":" +:+ text (snd p)] in
      "{" +:+ JSString.joinComma (flat_map member props) +:+ "}"
  | Builtin k => if String.eqb k "__proto__" then "{}" else "null"
  | Member _ _ => "null"
  end.

(** [JSON.stringify(v)]; [None] stands for the [undefined] it returns when
    [v] is [undefined] or a function. *)
Definition stringify (v : Value) : option string :=
  if omitted v then None else Some (text v).

(** [JSON.stringify] of an object literal with the given properties. *)
Definition stringifyObject (props : list (string * Value)) : string :=
  text (Object props).

End JSON.

(** ** The request and the two response shapes *)

Module Event.

(** The fields of [APIGatewayEvent] the router and the error translator
    read or write. *)
Record t : Type := mk {
  httpMethod : string;
  path : string;
  body : option string;
  headers : option (gmap string string);
  queryStringParameters : option (gmap string string);
  pathParameters : option (gmap string string);
}.

(** [event.pathParameters = params]. *)
Definition setPathParameters (params : gmap string string) (e : t) : t :=
  mk (httpMethod e) (path e) (body e) (headers e) (queryStringParameters e)
     (Some params).

End Event.

Module Response.

(** What a handler returns: [{ statusCode, body: { message, data? } }]. *)
Record t : Type := mk {
  statusCode : Z;
  message : string;
  data : JS.Value;      (* [Undefined] when the handler gives no data *)
}.

(** The [body] object of the handler's response. *)
Definition bodyProps (r : t) : list (string * JS.Value) :=
  [("message", JS.Str (message r)); ("data", data r)].

End Response.

Module Wire.

(** What the router answers: the status code and the serialized body. *)
Record t : Type := mk {
  statusCode : Z;
  body : string;
}.

End Wire.

(** ** error_handler.ts *)

Module ErrorHandler.

(** The subclasses of [CustomError]. *)
Inductive CustomError : Type :=
| UndefinedPathError
| UnauthorizedError
| ForbiddenError
| BadRequestError
| InternalServerError
| DatabaseError
| NotFoundError
| ConflictError
| ValidationError.

(** A thrown value: an instance of one of the nine classes this file
    exports, with its message, or any other [Error] object with its [name]
    and its [message], both strings. Outside this type, and outside what
    is stated below, are the other values JavaScript lets a callback
    throw: a value that is not an object ([errorHandler] finds no [name]
    on a string and cannot read one from [null] or [undefined]) and an
    instance of a further subclass that declares a [statusCode] of its
    own. *)
Inductive Error : Type :=
| Custom (cls : CustomError) (message : string)
| Other (name message : string).

(** The [statusCode] field each class declares. *)
Definition statusCode (cls : CustomError) : Z :=
  match cls with
  | UndefinedPathError => 404
  | UnauthorizedError => 401
  | ForbiddenError => 403
  | BadRequestError => 400
  | InternalServerError => 500
  | DatabaseError => 500
  | NotFoundError => 404
  | ConflictError => 409
  | ValidationError => 400
  end.

(** [this.constructor.name]. *)
Definition className (cls : CustomError) : string :=
  match cls with
  | UndefinedPathError => "UndefinedPathError"
  | UnauthorizedError => "UnauthorizedError"
  | ForbiddenError => "ForbiddenError"
  | BadRequestError => "BadRequestError"
  | InternalServerError => "InternalServerError"
  | DatabaseError => "DatabaseError"
  | NotFoundError => "NotFoundError"
  | ConflictError => "ConflictError"
  | ValidationError => "ValidationError"
  end.

(** The message each constructor falls back on. *)
Definition defaultMessage (cls : CustomError) : string :=
  match cls with
  | UndefinedPathError => "정의되지 않은 경로입니다."
  | UnauthorizedError => "인증되지 않은 사용자입니다."
  | ForbiddenError => "권한이 없습니다."
  | BadRequestError => "잘못된 요청입니다."
  | InternalServerError => "서버 에러입니다."
  | DatabaseError => "데이터베이스 에러입니다."
  | NotFoundError => "데이터가 없습니다."
  | ConflictError => "중복된 데이터가 있습니다."
  | ValidationError => "유효성 검사 에러입니다."
  end.

(** [new Cls(message)]: [message ?? default]. [UndefinedPathError] takes
    no argument ([None]). *)
Definition newError (cls : CustomError) (message : option string) : Error :=
  Custom cls (default (defaultMessage cls) message).

Definition errorName (e : Error) : string :=
  match e with
  | Custom cls _ => className cls
  | Other name _ => name
  end.

Definition errorMessage (e : Error) : string :=
  match e with
  | Custom _ message => message
  | Other _ message => message
  end.

(** The answer of [errorHandler(error, event, context)]; its
    [console.error] is recorded by the caller in the dispatch trace. *)
Definition errorHandler (error : Error) : Wire.t :=
  let statusCode :=
    match error with
    | Custom cls _ => statusCode cls      (* error instanceof CustomError *)
    | Other _ _ => 500%Z
    end in
  let message :=
    match errorMessage error with
    | EmptyString => "Internal Server Error"
    | m => m
    end in
  Wire.mk statusCode
    (JSON.stringifyObject
       [("message", JS.Str message); ("error", JS.Str (errorName error))]).

(** The errors the platform throws inside the router. Their message is
    the engine's own text; nothing depends on it. *)
Definition syntaxError : Error := Other "SyntaxError" "Unexpected token in JSON".
Definition typeError : Error :=
  Other "TypeError" "Cannot read properties of null".

End ErrorHandler.

(** ** The router *)

Module Router.

Import ErrorHandler.

(** What the dispatch does on behalf of the application, in the order it
    does it: the calls to the callbacks it was given and the error log of
    the error translator. *)
Inductive Call : Type :=
| CallLogger
| CallMiddleware (i : nat)                          (* the [i]-th registered middleware *)
| CallGuard (i : nat)                               (* the [i]-th guard of the route *)
| CallHandler (name : string) (args : list JS.Value)
| ConsoleError (e : Error).

(** How a computation ends: with a thrown error or with a value. *)
Inductive Result (A : Type) : Type :=
| Threw (e : Error)
| Returned (a : A).

Arguments Threw {A} e.
Arguments Returned {A} a.

(** How the promise of [handleRequest] settles. *)
Inductive Outcome : Type :=
| Fulfilled (res : Wire.t)
| Rejected (e : Error).

(** The metadata one parameter decorator records:
    [{ index, type, param }]. *)
Record ParamMeta : Type := mkParam {
  index : nat;
  type : string;
  param : option string;
}.

Section Dispatch.

(** [W]: whatever the callbacks of the application can read and change
    besides the request. [Ctx]: the Lambda [Context], handed on as it is. *)
Context {W Ctx : Type}.

(** A callback of the application, called with the request: it may change
    the request and the world, and it returns a value or throws. *)
Definition Callback (A : Type) : Type := Event.t → W → Event.t * W * Result A.

Definition Guard : Type := Ctx → Callback bool.

Definition Middleware : Type := Ctx → Callback unit.

(** A bound controller method, with what
    [Reflect.getMetadata('parameters', target, handler.name) || []] gives
    for it: [name] is the name of the method it was bound from, which
    labels its calls in the trace, and [parameters] the list of descriptors
    [invokeHandler] reads. That list is looked up under the bound function
    and its own name; [Decorators.boundParameters] is the lookup, and
    what the parameter decorators recorded for the method is not found by
    it. The handler is called with the bound arguments only; it is
    given the request as well because the containers among its arguments
    ([event.headers] and the like) are the request's own objects. *)
Record Handler : Type := mkHandler {
  name : string;
  parameters : list ParamMeta;
  call : list JS.Value → Callback Response.t;
}.

Record StaticRoute : Type := mkStatic {
  sr_method : string;
  sr_path : string;
  sr_handler : Handler;
  sr_guards : list Guard;
}.

Record DynamicRoute : Type := mkDynamic {
  dr_method : string;
  dr_path : RegExp.t;
  dr_handler : Handler;
  dr_guards : list Guard;
}.

Record Router : Type := mkRouter {
  staticRoutes : list StaticRoute;
  dynamicRoutes : list DynamicRoute;
  middlewares : list Middleware;
  logger : option Middleware;
}.

(** [createRouter()]. *)
Definition createRouter : Router := mkRouter [] [] [] None.

Definition useLogger (l : Middleware) (r : Router) : Router :=
  mkRouter (staticRoutes r) (dynamicRoutes r) (middlewares r) (Some l).

Definition use (m : Middleware) (r : Router) : Router :=
  mkRouter (staticRoutes r) (dynamicRoutes r) (middlewares r ++ [m]) (logger r).

(** *** Registration *)

(** [convertToRegExp(path)]. *)
Definition convertToRegExp (path : string) : option RegExp.t :=
  let pattern := JSString.replaceKeys path in
  RegExp.new ("^" +:+ pattern +:+ "$").

(** One own property of the controller's prototype with the metadata
    [addRoute] reads for it. *)
Record Method : Type := mkMethod {
  m_name : string;            (* methodName *)
  m_method : string;          (* Reflect.getMetadata('method', ...) *)
  m_path : string;            (* Reflect.getMetadata('path', controller, methodName) *)
  m_guards : list Guard;      (* Reflect.getMetadata('guards', ...) || [] *)
  m_handler : Handler;        (* instance[methodName].bind(instance) *)
}.

Record Controller : Type := mkController {
  controllerPath : string;    (* Reflect.getMetadata('path', controller) *)
  methods : list Method;      (* Object.getOwnPropertyNames(controller.prototype) *)
}.

(** The body of the [forEach] of [addRoute] for one method. [None]: the
    pattern of a dynamic route is outside the modelled expressions. *)
Definition addMethod (controllerPath : string) (r : Router) (m : Method)
    : option Router :=
  if String.eqb (m_name m) "constructor" then Some r
  else if JSString.includes (m_path m) ":" then
    dynamicPathPattern ← convertToRegExp (controllerPath +:+ m_path m);
    Some (mkRouter (staticRoutes r)
            (dynamicRoutes r ++
               [mkDynamic (m_method m) dynamicPathPattern (m_handler m) (m_guards m)])
            (middlewares r) (logger r))
  else
    Some (mkRouter
            (staticRoutes r ++
               [mkStatic (m_method m) (controllerPath +:+ m_path m)
                  (m_handler m) (m_guards m)])
            (dynamicRoutes r) (middlewares r) (logger r)).

Definition addRoute (controller : Controller) (r : Router) : option Router :=
  foldl (λ acc m, r' ← acc; addMethod (controllerPath controller) r' m)
    (Some r) (methods controller).

(** *** Dispatch state and computations *)

Record State : Type := mkState {
  event : Event.t;
  world : W;
  trace : list Call;
}.

(** A computation of the dispatch. *)
Definition M (A : Type) : Type := State → State * Result A.

Definition ret {A} (a : A) : M A := λ st, (st, Returned a).

Definition throw {A} (e : Error) : M A := λ st, (st, Threw e).

Definition bind {A B} (m : M A) (k : A → M B) : M B :=
  λ st,
    match m st with
    | (st', Returned a) => k a st'
    | (st', Threw e) => (st', Threw e)
    end.

Notation "x ←' m ;; k" := (bind m (λ x, k))
  (at level 100, m at next level, right associativity, only parsing).
Notation "m ;;' k" := (bind m (λ _, k))
  (at level 100, right associativity, only parsing).

(** Add a line to the trace. *)
Definition record (c : Call) (st : State) : State :=
  mkState (event st) (world st) (trace st ++ [c]).

(** [await cb(event, ...)]: the call is recorded, then the callback runs on
    the request and the world as they are now. *)
Definition perform {A} (c : Call) (cb : Callback A) : M A :=
  λ st,
    let '(ev, w, res) := cb (event st) (world st) in
    (mkState ev w (trace st ++ [c]), res).

(** *** Path parameters *)

(** [params[k] = v]; an [undefined] value reads like a missing key. *)
Definition assign (params : gmap string string) (k : string) (v : option string)
    : gmap string string :=
  match v with
  | Some s => <[k := s]> params
  | None => delete k params
  end.

(** The [forEach] of [extractParams], from the key at position [index]. *)
Fixpoint assignKeys (keys : list string) (index : nat) (match_ : list string)
    (params : gmap string string) : gmap string string :=
  match keys with
  | [] => params
  | key :: rest =>
      assignKeys rest (S index) match_
        (assign params (JSString.slice1 key) (match_ !! (index + 1)))
  end.

(** [extractParams(pattern, match)]. *)
Definition extractParams (pattern : RegExp.t) (match_ : list string)
    : gmap string string :=
  let keys := JSString.matchKeys (RegExp.toString pattern) in
  assignKeys keys 0 match_ ∅.

(** *** Route lookup *)

(** [this.staticRoutes.find(route => route.method === httpMethod &&
    route.path === path)]. *)
Definition findStatic (routes : list StaticRoute) (httpMethod path : string)
    : option StaticRoute :=
  List.find (λ route, String.eqb (sr_method route) httpMethod
                      && String.eqb (sr_path route) path) routes.

(** [this.dynamicRoutes.find(route => ...)]: the callback of [find] stores
    the extracted parameters in the request when it answers [true]. (For
    the expressions modelled in [RegExp], which are anchored at both ends,
    element 0 of a match is always the whole path; the test is kept as the
    source has it.) *)
Fixpoint findDynamic (routes : list DynamicRoute) (path : string)
    : M (option DynamicRoute) :=
  match routes with
  | [] => ret None
  | route :: rest =>
      match RegExp.match_ path (dr_path route) with
      | Some match_ =>
          if bool_decide (match_ !! 0 = Some path) then
            let params := extractParams (dr_path route) match_ in
            λ st,
              (mkState (Event.setPathParameters params (event st))
                 (world st) (trace st),
               Returned (Some route))
          else findDynamic rest path
      | None => findDynamic rest path
      end
  end.

(** *** Guards *)

(** [processGuards(guards, event, context)], from the guard at position
    [i]. *)
Fixpoint processGuards (guards : list Guard) (i : nat) (context : Ctx) : M bool :=
  match guards with
  | [] => ret true
  | guard :: rest =>
      result ←' perform (CallGuard i) (guard context);;
      if result : bool then processGuards rest (S i) context
      else throw (newError ForbiddenError None)
  end.

(** *** Parameter binding and handler invocation *)

(** A string in a condition: only the empty string is falsy. *)
Definition truthy (s : option string) : option string :=
  match s with
  | Some EmptyString => None
  | _ => s
  end.

(** [args[index] = v] on a JavaScript array: writing past the end leaves
    holes, which read as [undefined] when the array is spread. *)
Definition setIndex (args : list JS.Value) (index : nat) (v : JS.Value)
    : list JS.Value :=
  if (index <? length args)%nat then <[index := v]> args
  else args ++ replicate (index - length args) JS.Undefined ++ [v].

(** [m?.[k]] on a nullable string map: [undefined] when there is no
    map, else the string the map holds under [k], else what the map, a
    plain object, inherits under [k]. *)
Definition lookupOpt (m : option (gmap string string)) (k : string) : JS.Value :=
  match m with
  | None => JS.Undefined
  | Some o =>
      match o !! k with
      | Some s => JS.Str s
      | None => JS.inherited k
      end
  end.

(** A nullable string map as a value. *)
Definition mapValue (m : option (gmap string string)) : JS.Value :=
  match m with
  | Some m' => JS.ofMap m'
  | None => JS.Null
  end.

(** One turn of the [switch] of [invokeHandler]: the value for one
    parameter. *)
Definition bindParam (ev : Event.t) (p : ParamMeta) : Result JS.Value :=
  if String.eqb (type p) "body" then
    match truthy (Event.body ev) with
    | None => Returned JS.Undefined
    | Some text =>
        match JSON.parse text with
        | None => Threw syntaxError
        | Some parsed =>
            match truthy (param p) with
            | Some key =>
                match JS.getProp parsed key with
                | Some v => Returned v
                | None => Threw typeError
                end
            | None => Returned parsed
            end
        end
    end
  else if String.eqb (type p) "query" then
    match truthy (param p) with
    | Some key => Returned (lookupOpt (Event.queryStringParameters ev) key)
    | None => Returned (mapValue (Event.queryStringParameters ev))
    end
  else if String.eqb (type p) "params" then
    match truthy (param p) with
    | Some key => Returned (lookupOpt (Event.pathParameters ev) key)
    | None => Returned (mapValue (Event.pathParameters ev))
    end
  else if String.eqb (type p) "headers" then
    match truthy (param p) with
    | Some key => Returned (lookupOpt (Event.headers ev) (JSString.toLowerCase key))
    | None => Returned (mapValue (Event.headers ev))
    end
  else Returned JS.Undefined.

(** The loop over [paramsMetadata]. *)
Fixpoint bindParams (ps : list ParamMeta) (ev : Event.t) (args : list JS.Value)
    : Result (list JS.Value) :=
  match ps with
  | [] => Returned args
  | p :: rest =>
      match bindParam ev p with
      | Returned v => bindParams rest ev (setIndex args (index p) v)
      | Threw e => Threw e
      end
  end.

(** [invokeHandler(handler, event, context)]. *)
Definition invokeHandler (handler : Handler) : M Wire.t :=
  args ←' (λ st, (st, bindParams (parameters handler) (event st) []));;
  res ←' perform (CallHandler (name handler) args) (call handler args);;
  ret (Wire.mk (Response.statusCode res)
         (JSON.stringifyObject (Response.bodyProps res))).

(** *** handleRequest *)

Definition runLogger (r : Router) (context : Ctx) : M unit :=
  match logger r with
  | Some l => perform CallLogger (l context)
  | None => ret tt
  end.

(** The loop over [this.middlewares], from the middleware at position [i]. *)
Fixpoint runMiddlewares (ms : list Middleware) (i : nat) (context : Ctx) : M unit :=
  match ms with
  | [] => ret tt
  | middleware :: rest =>
      perform (CallMiddleware i) (middleware context);;'
      runMiddlewares rest (S i) context
  end.

(** The body of the [try] block. All it awaits runs here; its value is the
    handler whose invocation it returns. *)
Definition tryBlock (r : Router) (httpMethod path : string) (context : Ctx)
    : M Handler :=
  runLogger r context;;'
  runMiddlewares (middlewares r) 0 context;;'
  match findStatic (staticRoutes r) httpMethod path with
  | Some staticRoute =>
      processGuards (sr_guards staticRoute) 0 context;;'
      ret (sr_handler staticRoute)
  | None =>
      dynamicRoute ←' findDynamic (dynamicRoutes r) path;;
      match dynamicRoute with
      | Some route =>
          processGuards (dr_guards route) 0 context;;'
          ret (dr_handler route)
      | None => throw (newError UndefinedPathError None)
      end
  end.

(** [handleRequest(event, context)]. The method and the path are read
    from the request once, before anything runs. An error thrown inside the
    [try] block is caught and answered by [errorHandler]. The block returns
    the promise of [invokeHandler] without awaiting it, so that promise
    settles the result directly: when it rejects, so does [handleRequest]. *)
Definition handleRequest (r : Router) (context : Ctx) (st : State)
    : State * Outcome :=
  let httpMethod := Event.httpMethod (event st) in
  let path := Event.path (event st) in
  match tryBlock r httpMethod path context st with
  | (st1, Threw error) =>
      (record (ConsoleError error) st1, Fulfilled (errorHandler error))
  | (st1, Returned handler) =>
      match invokeHandler handler st1 with
      | (st2, Returned res) => (st2, Fulfilled res)
      | (st2, Threw error) => (st2, Rejected error)
      end
  end.

End Dispatch.

Arguments Callback : clear implicits.
Arguments Guard : clear implicits.
Arguments Middleware : clear implicits.
Arguments Handler : clear implicits.
Arguments StaticRoute : clear implicits.
Arguments DynamicRoute : clear implicits.
Arguments Router : clear implicits.
Arguments Method : clear implicits.
Arguments Controller : clear implicits.
Arguments State : clear implicits.
Arguments M : clear implicits.

End Router.

(** ** Notions used to state the properties *)

Module Spec.

Import Router ErrorHandler.

(** No placeholder of the form [:name] occurs in [s]. *)
Fixpoint noKey (s : string) : bool :=
  match s with
  | EmptyString => true
  | String c r => negb (JSString.startsKey c r) && noKey r
  end.

Definition headAlnum (s : string) : bool :=
  match s with
  | String d _ => JSString.isAlnum d
  | EmptyString => false
  end.

(** Two requests that differ at most in their resolved path parameters. *)
Definition sameRequest (e1 e2 : Event.t) : Prop :=
  Event.httpMethod e1 = Event.httpMethod e2 ∧
  Event.path e1 = Event.path e2 ∧
  Event.body e1 = Event.body e2 ∧
  Event.headers e1 = Event.headers e2 ∧
  Event.queryStringParameters e1 = Event.queryStringParameters e2.

Section WithWorld.

Context {W Ctx : Type}.

(** A callback that leaves the request as it found it. *)
Definition keepsRequest {A} (cb : Callback W A) : Prop :=
  ∀ ev w, (cb ev w).1.1 = ev.

(** No callback registered with the router changes the request. *)
Definition appKeepsRequest (r : Router W Ctx) (context : Ctx) : Prop :=
  (∀ l, logger r = Some l → keepsRequest (l context)) ∧
  (∀ m, m ∈ middlewares r → keepsRequest (m context)) ∧
  (∀ route, route ∈ staticRoutes r →
     (∀ g, g ∈ sr_guards route → keepsRequest (g context)) ∧
     (∀ args, keepsRequest (call (sr_handler route) args))) ∧
  (∀ route, route ∈ dynamicRoutes r →
     (∀ g, g ∈ dr_guards route → keepsRequest (g context)) ∧
     (∀ args, keepsRequest (call (dr_handler route) args))).

(** The calls the logger and the first [n] middlewares leave in the trace. *)
Definition preambleCalls (r : Router W Ctx) (n : nat) : list Call :=
  match logger r with
  | Some _ => [CallLogger]
  | None => []
  end ++ (CallMiddleware <$> seq 0 n).

(** Logger, then middlewares: the part of [tryBlock] before route lookup. *)
Definition preamble (r : Router W Ctx) (context : Ctx) : M W unit :=
  bind (runLogger r context) (λ _, runMiddlewares (middlewares r) 0 context).

(** Route lookup as [tryBlock] performs it: the guards and the handler of
    the route found, static routes first. *)
Definition lookup (r : Router W Ctx) (httpMethod path : string)
    : M W (option (list (Guard W Ctx) * Handler W)) :=
  match findStatic (staticRoutes r) httpMethod path with
  | Some staticRoute =>
      ret (Some (sr_guards staticRoute, sr_handler staticRoute))
  | None =>
      bind (findDynamic (dynamicRoutes r) path)
        (λ dynamicRoute,
           ret (match dynamicRoute with
                | Some route => Some (dr_guards route, dr_handler route)
                | None => None
                end))
  end.

(** What [tryBlock] does once the middlewares are through: route lookup,
    then the guards of the route found. *)
Definition resolve (r : Router W Ctx) (httpMethod path : string) (context : Ctx)
    : M W (Handler W) :=
  bind (lookup r httpMethod path)
    (λ found,
       match found with
       | Some (guards, handler) =>
           bind (processGuards guards 0 context) (λ _, ret handler)
       | None => throw (newError UndefinedPathError None)
       end).

(** How [handleRequest] settles once the handler [h] has been called with
    [args] in the state [st]. *)
Definition settle (h : Handler W) (args : list JS.Value) (st : State W)
    : State W * Outcome :=
  let '(ev, w, res) := call h args (event st) (world st) in
  (mkState ev w (trace st ++ [CallHandler (name h) args]),
   match res with
   | Returned res' =>
       Fulfilled (Wire.mk (Response.statusCode res')
                    (JSON.stringifyObject (Response.bodyProps res')))
   | Threw e => Rejected e
   end).

(** [handleRequest] from the state [st0] the preamble leaves. *)
Definition finish (r : Router W Ctx) (httpMethod path : string) (context : Ctx)
    (st0 : State W) : State W * Outcome :=
  match resolve r httpMethod path context st0 with
  | (st1, Threw error) =>
      (record (ConsoleError error) st1, Fulfilled (errorHandler error))
  | (st1, Returned handler) =>
      match bindParams (parameters handler) (event st1) [] with
      | Returned args => settle handler args st1
      | Threw error => (st1, Rejected error)
      end
  end.

(** The dynamic route the dispatch selects for the request it starts
    with, if it selects one: the logger and the middlewares are through,
    no static route is registered for the method and the path, and the
    dynamic lookup answers with that route. *)
Definition selected (r : Router W Ctx) (context : Ctx) (st : State W)
    : option (DynamicRoute W Ctx) :=
  match preamble r context st with
  | (st0, Returned _) =>
      match findStatic (staticRoutes r) (Event.httpMethod (event st))
              (Event.path (event st)) with
      | Some _ => None
      | None =>
          match (findDynamic (dynamicRoutes r) (Event.path (event st)) st0).2 with
          | Returned found => found
          | Threw _ => None
          end
      end
  | (_, Threw _) => None
  end.

(** A computation that leaves the request as it found it. *)
Definition keeps {A} (m : M W A) : Prop := ∀ st, event (m st).1 = event st.


End WithWorld.

End Spec.

(** ** The decorators

    The metadata the decorators of the router write with
    [Reflect.defineMetadata] and read back with [Reflect.getOwnMetadata]:
    own metadata, kept per target object and property key. The targets
    are told apart by a number. The metadata keys ['method'] and ['path']
    hold strings, ['guards'] holds a list of guards and ['parameters'] a
    list of parameter descriptors; each has its own map here.
    [Reflect.getMetadata] looks for the metadata of the target and then of
    the objects on its prototype chain. *)

Module Decorators.

Import Router.

Section Metadata.

Context {W Ctx : Type}.

Record Store : Type := mkStore {
  method : gmap (positive * string) string;          (* 'method', per method *)
  path : gmap (positive * option string) string;     (* 'path', per class or method *)
  guards : gmap (positive * string) (list (Guard W Ctx));
  parameters : gmap (positive * string) (list ParamMeta);
}.

Definition empty : Store := mkStore ∅ ∅ ∅ ∅.

(** [@Controller(path)] on the class [target]. *)
Definition Controller (path' : string) (target : positive) (s : Store) : Store :=
  mkStore (method s) (<[(target, None) := path']> (path s)) (guards s) (parameters s).

(** The two [defineMetadata] calls of a method decorator. *)
Definition defineRoute (verb path' : string) (target : positive)
    (propertyKey : string) (s : Store) : Store :=
  mkStore (<[(target, propertyKey) := verb]> (method s))
    (<[(target, Some propertyKey) := path']> (path s)) (guards s) (parameters s).

Definition Get (path' : string) := defineRoute "GET" path'.
Definition Post (path' : string) := defineRoute "POST" path'.
Definition Put (path' : string) := defineRoute "PUT" path'.
Definition Delete (path' : string) := defineRoute "DELETE" path'.

(** What the four parameter decorators do: read the descriptors recorded
    so far (or start from none), push one more and store the list. *)
Definition pushParam (type' : string) (param' : option string) (target : positive)
    (propertyKey : string) (parameterIndex : nat) (s : Store) : Store :=
  let existingParamMetadata := default [] (parameters s !! (target, propertyKey)) in
  mkStore (method s) (path s) (guards s)
    (<[(target, propertyKey) :=
         existingParamMetadata ++ [mkParam parameterIndex type' param']]>
       (parameters s)).

Definition Body (param' : option string) := pushParam "body" param'.
Definition Query (param' : option string) := pushParam "query" param'.
Definition Params (param' : option string) := pushParam "params" param'.
Definition Headers (param' : option string) := pushParam "headers" param'.

(** [@UseGuard(guard)]. *)
Definition UseGuard (guard : Guard W Ctx) (target : positive) (propertyKey : string)
    (s : Store) : Store :=
  let existingGuards := default [] (guards s !! (target, propertyKey)) in
  mkStore (method s) (path s)
    (<[(target, propertyKey) := existingGuards ++ [guard]]> (guards s))
    (parameters s).

(** One parameter decorator, by the name of its function. *)
Inductive ParamDecorator : Type :=
| ByBody (param' : option string)
| ByQuery (param' : option string)
| ByParams (param' : option string)
| ByHeaders (param' : option string).

Definition applyParam (d : ParamDecorator) : positive → string → nat → Store → Store :=
  match d with
  | ByBody p => Body p
  | ByQuery p => Query p
  | ByParams p => Params p
  | ByHeaders p => Headers p
  end.

(** The descriptor a parameter decorator at position [i] stands for. *)
Definition descriptor (d : ParamDecorator) (i : nat) : ParamMeta :=
  match d with
  | ByBody p => mkParam i "body" p
  | ByQuery p => mkParam i "query" p
  | ByParams p => mkParam i "params" p
  | ByHeaders p => mkParam i "headers" p
  end.

(** Parameter decorators applied one after the other to one method, each
    with the position of its parameter. *)
Definition applyParams (ds : list (ParamDecorator * nat)) (target : positive)
    (propertyKey : string) (s : Store) : Store :=
  foldl (λ s' d, applyParam d.1 target propertyKey d.2 s') s ds.

(** [@UseGuard] applied for each guard of the list in turn. *)
Definition applyGuards (gs : list (Guard W Ctx)) (target : positive)
    (propertyKey : string) (s : Store) : Store :=
  foldl (λ s' g, UseGuard g target propertyKey s') s gs.

(** [Reflect.getMetadata('parameters', target, propertyKey) || []]: the
    descriptors of the first object that has some under the key, from the
    target along its prototype chain, which [chain] lists with the target
    first. *)
Fixpoint getParameters (s : Store) (chain : list positive) (propertyKey : string)
    : list ParamMeta :=
  match chain with
  | [] => []
  | target :: rest =>
      match parameters s !! (target, propertyKey) with
      | Some existing => existing
      | None => getParameters s rest propertyKey
      end
  end.

(** [handler.name] for [handler = instance[methodName].bind(instance)]. *)
Definition boundName (methodName : string) : string := "bound " +:+ methodName.

(** The descriptors [invokeHandler] reads for the handler that [addRoute]
    bound from the method [methodName]. A bound function has no
    [prototype], so the target is the function itself; [chain] is the
    bound function followed by its prototype chain, and the key is the
    name of the bound function. *)
Definition boundParameters (s : Store) (chain : list positive) (methodName : string)
    : list ParamMeta :=
  getParameters s chain (boundName methodName).

End Metadata.

Arguments Store : clear implicits.

End Decorators.

(** ** Sample applications *)

Module Sample.

Import Router ErrorHandler.

Definition World : Type := unit.
Definition Context : Type := unit.

Definition get (path : string) : Event.t :=
  Event.mk "GET" path None None None None.

Definition post (path : string) (body : option string) : Event.t :=
  Event.mk "POST" path body None None None.

Definition start (ev : Event.t) : State World := mkState ev tt [].

(** The dynamic route of the README: [GET /users/:id], whose handler
    answers with the [id] path parameter. The descriptor of
    [@Params('id')] is given to the binding here, as if [invokeHandler]
    read it; [getItemDeclared] below is the handler with what it does
    read. *)
Definition getItem : Handler World :=
  mkHandler "getItem" [mkParam 0 "params" (Some "id")]
    (λ args ev w,
       let id := default JS.Undefined (args !! 0) in
       (ev, w, Returned (Response.mk 200 ("Item ID: " +:+ JS.toText id) JS.Undefined))).

Definition ItemController : Controller World Context :=
  mkController "/users"
    [mkMethod "constructor" EmptyString EmptyString [] getItem;
     mkMethod "getItem" "GET" "/:id" [] getItem].

Definition itemRoute : DynamicRoute World Context :=
  mkDynamic "GET"
    (RegExp.mk "^/users/([^/]+)$"
       (map RegExp.Lit (list_ascii_of_string "/users/") ++ [RegExp.Group]))
    getItem [].

Definition itemRouter : Router World Context := mkRouter [] [itemRoute] [] None.

Definition allow : Guard World Context := λ _ ev w, (ev, w, Returned true).
Definition deny : Guard World Context := λ _ ev w, (ev, w, Returned false).
Definition quiet : Middleware World Context := λ _ ev w, (ev, w, Returned tt).
Definition failing : Middleware World Context :=
  λ _ ev w, (ev, w, Threw (newError UnauthorizedError None)).
Definition crashing : Guard World Context :=
  λ _ ev w, (ev, w, Threw (Other "Error" "token store unreachable")).

Definition secureEndpoint : Handler World :=
  mkHandler "secureEndpoint" []
    (λ args ev w, (ev, w, Returned (Response.mk 200 "Access granted!" JS.Undefined))).

(** [GET /secure] behind three guards, the second of which denies; a
    logger and two middlewares. *)
Definition secureRouter : Router World Context :=
  mkRouter [mkStatic "GET" "/secure" secureEndpoint [allow; deny; allow]] []
    [quiet; quiet] (Some quiet).

(** The same route behind a guard that throws. *)
Definition crashingRouter : Router World Context :=
  mkRouter [mkStatic "GET" "/secure" secureEndpoint [allow; crashing; allow]] []
    [quiet; quiet] (Some quiet).



(** [GET /users/me], registered after the dynamic route [GET /users/:id]. *)
Definition getMe : Handler World :=
  mkHandler "getMe" []
    (λ args ev w, (ev, w, Returned (Response.mk 200 "Current user" JS.Undefined))).

Definition meRoute : StaticRoute World Context := mkStatic "GET" "/users/me" getMe [].

Definition mixedRouter : Router World Context :=
  mkRouter [meRoute] [itemRoute] [] None.

(** The controller of the README's basic setup: [GET /users/] and
    [POST /users/], whose method [createUser] is declared with
    [@Body('name')] on its first parameter. *)
Definition getUsers : Handler World :=
  mkHandler "getUsers" []
    (λ args ev w, (ev, w, Returned (Response.mk 200 "Get all users" JS.Undefined))).

(** The objects the metadata of that controller involves. *)
Definition userPrototype : positive := 1.       (* UserController.prototype *)
Definition functionPrototype : positive := 2.   (* Function.prototype *)
Definition objectPrototype : positive := 3.     (* Object.prototype *)
Definition boundCreateUser : positive := 4.     (* instance.createUser.bind(instance) *)

(** A bound method and its prototype chain. *)
Definition boundChain (bound : positive) : list positive :=
  [bound; functionPrototype; objectPrototype].

(** The metadata once the class is declared: [@Body('name')] has run for
    parameter 0 of [createUser]. *)
Definition readmeStore : Decorators.Store World Context :=
  Decorators.Body (Some "name") userPrototype "createUser" 0 Decorators.empty.

Definition createUserBody (args : list JS.Value) : Callback World Response.t :=
  λ ev w,
    let name := default JS.Undefined (args !! 0) in
    (ev, w,
     Returned (Response.mk 201 ("User " +:+ JS.toText name +:+ " created!")
                 JS.Undefined)).

(** [createUser] as [addRoute] stores it: the descriptors are the ones
    [invokeHandler] finds for the bound function. *)
Definition createUser : Handler World :=
  mkHandler "createUser"
    (Decorators.boundParameters readmeStore (boundChain boundCreateUser) "createUser")
    createUserBody.

(** The same application after the decorator has also been applied by
    hand where [invokeHandler] looks:
    [Body('name')(Function.prototype, 'bound createUser', 0)]. *)
Definition placedStore : Decorators.Store World Context :=
  Decorators.Body (Some "name") functionPrototype (Decorators.boundName "createUser") 0
    readmeStore.

Definition createUserPlaced : Handler World :=
  mkHandler "createUser"
    (Decorators.boundParameters placedStore (boundChain boundCreateUser) "createUser")
    createUserBody.

Definition UserController : Controller World Context :=
  mkController "/users"
    [mkMethod "constructor" EmptyString EmptyString [] getUsers;
     mkMethod "getUsers" "GET" "/" [] getUsers;
     mkMethod "createUser" "POST" "/" [] createUser].

Definition userRouter : Router World Context :=
  mkRouter [mkStatic "GET" "/users/" getUsers [];
            mkStatic "POST" "/users/" createUser []] [] [] None.

Definition placedRouter : Router World Context :=
  mkRouter [mkStatic "GET" "/users/" getUsers [];
            mkStatic "POST" "/users/" createUserPlaced []] [] [] None.

(** [getItem(@Params('id') id)] of the README as [addRoute] stores it. *)
Definition itemPrototype : positive := 7.       (* ItemController.prototype *)
Definition boundGetItem : positive := 8.        (* instance.getItem.bind(instance) *)

Definition itemStore : Decorators.Store World Context :=
  Decorators.Params (Some "id") itemPrototype "getItem" 0 Decorators.empty.

Definition getItemDeclared : Handler World :=
  mkHandler "getItem"
    (Decorators.boundParameters itemStore (boundChain boundGetItem) "getItem")
    (call getItem).

Definition declaredItemRouter : Router World Context :=
  mkRouter []
    [mkDynamic "GET" (dr_path itemRoute) getItemDeclared []] [] None.

(** Two static routes registered for [GET /x], one after the other. *)
Definition firstX : Handler World :=
  mkHandler "firstX" []
    (λ args ev w, (ev, w, Returned (Response.mk 200 "first" JS.Undefined))).

Definition secondX : Handler World :=
  mkHandler "secondX" []
    (λ args ev w, (ev, w, Returned (Response.mk 200 "second" JS.Undefined))).

Definition firstRoute : StaticRoute World Context := mkStatic "GET" "/x" firstX [].
Definition secondRoute : StaticRoute World Context := mkStatic "GET" "/x" secondX [].

Definition duplicateRouter : Router World Context :=
  mkRouter [firstRoute; secondRoute] [] [] None.

(** A method [whoAmI(@Headers('Authorization') token)]: as it is
    declared and as [addRoute] stores it, and once the decorator has also
    been applied where [invokeHandler] looks. *)
Definition whoAmIPrototype : positive := 5.     (* the prototype of its class *)
Definition boundWhoAmI : positive := 6.         (* instance.whoAmI.bind(instance) *)

Definition headerStore : Decorators.Store World Context :=
  Decorators.Headers (Some "Authorization") whoAmIPrototype "whoAmI" 0
    Decorators.empty.

Definition placedHeaderStore : Decorators.Store World Context :=
  Decorators.Headers (Some "Authorization") functionPrototype
    (Decorators.boundName "whoAmI") 0 headerStore.

Definition whoAmIBody (args : list JS.Value) : Callback World Response.t :=
  λ ev w,
    let token := default JS.Undefined (args !! 0) in
    (ev, w, Returned (Response.mk 200 ("Token: " +:+ JS.toText token) JS.Undefined)).

Definition whoAmI : Handler World :=
  mkHandler "whoAmI"
    (Decorators.boundParameters headerStore (boundChain boundWhoAmI) "whoAmI")
    whoAmIBody.

Definition whoAmIPlaced : Handler World :=
  mkHandler "whoAmI"
    (Decorators.boundParameters placedHeaderStore (boundChain boundWhoAmI) "whoAmI")
    whoAmIBody.

(** A request whose only header is stored as [authorization]. *)
Definition withLowerAuthorization : Event.t :=
  Event.mk "GET" "/secure" None (Some {["authorization" := "Bearer t"]}) None None.

(** A request whose only header is stored as [Authorization]. *)
Definition withAuthorization : Event.t :=
  Event.mk "GET" "/secure" None (Some {["Authorization" := "Bearer t"]}) None None.

(** A controller whose prefix holds the placeholder:
    [@Controller('/users/:id')] with [@Get('/profile')]. *)
Definition getProfile : Handler World :=
  mkHandler "getProfile" []
    (λ args ev w, (ev, w, Returned (Response.mk 200 "Profile" JS.Undefined))).

Definition ProfileController : Controller World Context :=
  mkController "/users/:id" [mkMethod "getProfile" "GET" "/profile" [] getProfile].

Definition profileRouter : Router World Context :=
  mkRouter [mkStatic "GET" "/users/:id/profile" getProfile []] [] [] None.

End Sample.

(** ** Templates, paths and argument lists, for the properties of the
    matcher and the binder *)

Module Shape.

(** Every character of [s] satisfies [p]. *)
Fixpoint allChars (p : ascii → bool) (s : string) : bool :=
  match s with
  | EmptyString => true
  | String c r => p c && allChars p r
  end.

(** What a capture group can hold: a non-empty text without a solidus. *)
Definition validValue (v : string) : bool :=
  match v with
  | EmptyString => false
  | _ => allChars (λ c, negb (Ascii.eqb c "/")) v
  end.

(** The text a pattern describes once each capture group is given a
    value, in order; [None] when the values and the groups do not pair up. *)
Fixpoint fill (nodes : list RegExp.Node) (values : list string) : option string :=
  match nodes with
  | [] =>
      match values with
      | [] => Some EmptyString
      | _ => None
      end
  | RegExp.Lit c :: rest => String c <$> fill rest values
  | RegExp.Group :: rest =>
      match values with
      | v :: vs => (λ s, v +:+ s) <$> fill rest vs
      | [] => None
      end
  end.

(** One segment of a path template: literal text or a named placeholder. *)
Inductive Segment : Type :=
| Literal (text : string)
| Placeholder (name : string).

(** A character of a literal segment: not an operator of regular
    expressions, not the colon and not the separator. *)
Definition literalChar (c : ascii) : bool :=
  RegExp.isPlain c && negb (Ascii.eqb c ":") && negb (Ascii.eqb c "/").

Definition wellFormed (seg : Segment) : bool :=
  match seg with
  | Literal text => allChars literalChar text
  | Placeholder EmptyString => false
  | Placeholder name => allChars JSString.isAlnum name
  end.

(** The template text of a list of segments: each segment after a
    solidus, a placeholder as a colon and its name. *)
Fixpoint render (segs : list Segment) : string :=
  match segs with
  | [] => EmptyString
  | Literal text :: rest => String "/" (text +:+ render rest)
  | Placeholder name :: rest => String "/" (String ":" (name +:+ render rest))
  end.

(** The pattern text for the segments. *)
Fixpoint sourceOf (segs : list Segment) : string :=
  match segs with
  | [] => EmptyString
  | Literal text :: rest => String "/" (text +:+ sourceOf rest)
  | Placeholder _ :: rest => String "/" ("([^/]+)" +:+ sourceOf rest)
  end.

(** The pattern items for the segments. *)
Fixpoint nodesOf (segs : list Segment) : list RegExp.Node :=
  match segs with
  | [] => []
  | Literal text :: rest =>
      RegExp.Lit "/" :: (RegExp.Lit <$> list_ascii_of_string text) ++ nodesOf rest
  | Placeholder _ :: rest => RegExp.Lit "/" :: RegExp.Group :: nodesOf rest
  end.

(** The properties of an object whose values are the given strings. *)
Definition stringFields (fields : list (string * string)) : list (string * JS.Value) :=
  (λ kv, (kv.1, JS.Str kv.2)) <$> fields.

(** The text of one property of such an object, and of the properties
    that follow the first one up to the closing text. *)
Definition fieldText (kv : string * string) : string :=
  JSON.quote kv.1 +:+ ":" +:+ JSON.quote kv.2.

Definition fieldsTail (fields : list (string * string)) (close : string) : string :=
  foldr (λ kv t, "," +:+ fieldText kv +:+ t) close fields.

(** The message [errorHandler] puts in its answer. *)
Definition answerMessage (e : ErrorHandler.Error) : string :=
  match ErrorHandler.errorMessage e with
  | EmptyString => "Internal Server Error"
  | m => m
  end.

(** The largest position a list of parameter descriptors writes, plus one. *)
Definition arity (ps : list Router.ParamMeta) : nat :=
  foldr (λ p n, Nat.max (S (Router.index p)) n) 0 ps.

End Shape.


(** ** Properties *)

Import Router ErrorHandler Spec.

(** *** Examples of the path matcher *)

Example replaceKeys_users : JSString.replaceKeys "/users/:id" = "/users/([^/]+)".
Proof. reflexivity. Qed.

Example matchKeys_two :
  JSString.matchKeys "/users/:id/posts/:postId" = [":id"; ":postId"].
Proof. reflexivity. Qed.

Example toString_users :
  RegExp.toString <$> RegExp.new "^/users/([^/]+)$" = Some "/^\/users\/([^/]+)$/".
Proof. reflexivity. Qed.

Example match_users :
  (RegExp.new "^/users/([^/]+)$" ≫= RegExp.match_ "/users/42")
  = Some ["/users/42"; "42"].
Proof. reflexivity. Qed.

Example match_greedy :
  (RegExp.new "^/a/([^/]+)-([^/]+)$" ≫= RegExp.match_ "/a/1-2-3")
  = Some ["/a/1-2-3"; "1-2"; "3"].
Proof. reflexivity. Qed.

Example parse_array :
  JSON.parse " [1, -2.5e+3, true, null, [ ]] "
  = Some (JS.Array [JS.Number "1"; JS.Number "-2.5e+3"; JS.Bool true; JS.Null;
                    JS.Array []]).
Proof. reflexivity. Qed.

Example parse_object :
  JSON.parse (JSON.stringifyObject [("name", JS.Str "Ada"); ("tags", JS.Array [])])
  = Some (JS.Object [("name", JS.Str "Ada"); ("tags", JS.Array [])]).
Proof. reflexivity. Qed.

Example parse_malformed :
  JSON.parse <$> ["{bad"; "[1,]"; "01"; "1 2"; "nul"; EmptyString]
  = [None; None; None; None; None; None].
Proof. reflexivity. Qed.

Example addRoute_item :
  addRoute Sample.ItemController createRouter = Some Sample.itemRouter.
Proof. reflexivity. Qed.

(** *** The keys [extractParams] finds in a compiled pattern *)

Section Keys.

Import JSString.

Lemma append_cons c a b : String c a +:+ b = String c (a +:+ b).
Proof. reflexivity. Qed.

Lemma append_nil b : EmptyString +:+ b = b.
Proof. reflexivity. Qed.

Lemma startsKey_head c r : startsKey c r = Ascii.eqb c ":" && headAlnum r.
Proof. by destruct r. Qed.

Lemma startsKey_not_colon c r : Ascii.eqb c ":" = false → startsKey c r = false.
Proof. intros H. by rewrite startsKey_head, H. Qed.

Lemma startsKey_not_alnum c r : headAlnum r = false → startsKey c r = false.
Proof. intros H. rewrite startsKey_head, H. apply andb_false_r. Qed.

Lemma matchKeysFrom_noKey s : noKey s = true → matchKeysFrom None s = [].
Proof.
  induction s as [|c r IH]; simpl; [done|].
  intros [Hc Hr]%andb_true_iff.
  apply negb_true_iff in Hc. rewrite Hc. auto.
Qed.

Lemma noKey_app a b :
  noKey a = true → noKey b = true → headAlnum b = false → noKey (a +:+ b) = true.
Proof.
  intros Ha Hb Hh. induction a as [|c a' IH]; simpl in *; [done|].
  apply andb_true_iff in Ha as [Hc Ha].
  rewrite IH by done. rewrite andb_true_r.
  rewrite startsKey_head in *.
  destruct (Ascii.eqb c ":"); [|done]. simpl in *.
  destruct a' as [|d a'']; [|done].
  change (EmptyString +:+ b) with b. by rewrite Hh.
Qed.

Lemma headAlnum_replaceKeysFrom r :
  headAlnum r = false → headAlnum (replaceKeysFrom false r) = false.
Proof.
  destruct r as [|d r']; simpl; [done|].
  intros Hd. destruct (startsKey d r'); simpl; done.
Qed.

Lemma noKey_replaceKeysFrom b s : noKey (replaceKeysFrom b s) = true.
Proof.
  revert b. induction s as [|c r IH]; intros b; simpl; [done|].
  destruct (b && isAlnum c); [apply IH|].
  destruct (startsKey c r) eqn:Hk.
  - simpl. apply IH.
  - simpl. rewrite IH, andb_true_r. apply negb_true_iff.
    rewrite startsKey_head in *.
    destruct (Ascii.eqb c ":"); [|done]. simpl in *.
    by apply headAlnum_replaceKeysFrom.
Qed.

Lemma headAlnum_escapeSource b r :
  headAlnum r = false → headAlnum (RegExp.escapeSource b r) = false.
Proof.
  destruct r as [|d r']; simpl; [done|]. intros Hd.
  repeat (case_match; simpl; try done).
Qed.

Lemma noKey_escapeSource b s :
  noKey s = true → noKey (RegExp.escapeSource b s) = true.
Proof.
  revert b. induction s as [|c r IH]; intros b; simpl; [done|].
  intros [Hc Hr]%andb_true_iff. apply negb_true_iff in Hc.
  assert (Hkeep : ∀ b', noKey (String c (RegExp.escapeSource b' r)) = true).
  { intros b'. simpl. rewrite IH, andb_true_r by done. apply negb_true_iff.
    rewrite startsKey_head in *.
    destruct (Ascii.eqb c ":"); [|done]. simpl in *.
    by apply headAlnum_escapeSource. }
  repeat case_match; try apply Hkeep; rewrite !append_cons, append_nil; simpl;
    by rewrite IH.
Qed.

(** The text of a compiled pattern holds no placeholder: each one was
    replaced by a capture group when the pattern was built. *)
Lemma noKey_toString template re :
  convertToRegExp template = Some re → noKey (RegExp.toString re) = true.
Proof.
  unfold convertToRegExp, RegExp.new. simpl.
  destruct (RegExp.parseNodes _); simpl; [|done].
  intros [= <-]. unfold RegExp.toString. simpl RegExp.source.
  change (noKey (RegExp.escapeSource false
            ("^" +:+ (replaceKeys template +:+ "$")) +:+ "/") = true).
  apply noKey_app; [|done..].
  apply noKey_escapeSource.
  change (noKey (replaceKeys template +:+ "$") = true).
  apply noKey_app; [apply noKey_replaceKeysFrom|done..].
Qed.

(** Whatever template a dynamic route was registered with,
    [extractParams] finds no key in its pattern and returns the empty
    mapping. *)
Lemma extractParams_empty template re match_ :
  convertToRegExp template = Some re → extractParams re match_ = ∅.
Proof.
  intros H%noKey_toString. unfold extractParams, matchKeys.
  by rewrite matchKeysFrom_noKey.
Qed.

End Keys.

(** *** Dynamic route lookup *)

(** C1 (the code departs from the claim). With [GET /users/:id] as the
    only route, the request [POST /users/42] matches no static route and
    the dynamic lookup selects the [GET] route: the callback of [find]
    compares the pattern only and never reads the method of the route. *)
Theorem dynamic_lookup_ignores_method :
  let st := Sample.start (Sample.post "/users/42" None) in
  dr_method Sample.itemRoute = "GET" ∧
  Event.httpMethod (event st) = "POST" ∧
  findStatic (staticRoutes Sample.itemRouter) "POST" "/users/42" = None ∧
  (findDynamic (dynamicRoutes Sample.itemRouter) "/users/42" st).2
  = Returned (Some Sample.itemRoute).
Proof. repeat split; reflexivity. Qed.

(** C2 (the code departs from the claim). [GET /users/42] against the
    template [/users/:id]: the pattern matches and captures [42], but
    [extractParams] looks for the placeholder names in the compiled
    pattern, where none is left, so the request gets the empty mapping, the
    handler receives [undefined] for [id], and the body reads
    [Item ID: undefined]. *)
Theorem path_parameters_not_bound :
  RegExp.match_ "/users/42" (dr_path Sample.itemRoute) = Some ["/users/42"; "42"] ∧
  extractParams (dr_path Sample.itemRoute) ["/users/42"; "42"] = ∅ ∧
  handleRequest Sample.itemRouter tt (Sample.start (Sample.get "/users/42"))
  = (mkState (Event.mk "GET" "/users/42" None None None (Some ∅)) tt
       [CallHandler "getItem" [JS.Undefined]],
     Fulfilled (Wire.mk 200
       (JSON.stringifyObject [("message", JS.Str "Item ID: undefined")]))).
Proof. repeat split; reflexivity. Qed.

(** The same request when the handler gets what [invokeHandler] reads for
    the bound method, which is no descriptor: it is called without
    arguments and the body is the same. *)
Example path_parameters_not_bound_declared :
  parameters Sample.getItemDeclared = [] ∧
  handleRequest Sample.declaredItemRouter tt (Sample.start (Sample.get "/users/42"))
  = (mkState (Event.mk "GET" "/users/42" None None None (Some ∅)) tt
       [CallHandler "getItem" []],
     Fulfilled (Wire.mk 200
       (JSON.stringifyObject [("message", JS.Str "Item ID: undefined")]))).
Proof. split; reflexivity. Qed.

(** C7 (the code departs from the claim). With [GET /users/:id] as the
    only route, no route matches the method and path of [POST /users/42],
    yet the answer is the handler's 200 and not the 404 of
    [UndefinedPathError]. *)
Theorem unmatched_method_not_404 :
  let out := handleRequest Sample.itemRouter tt
               (Sample.start (Sample.post "/users/42" None)) in
  staticRoutes Sample.itemRouter = [] ∧
  dr_method <$> dynamicRoutes Sample.itemRouter = ["GET"] ∧
  trace out.1 = [CallHandler "getItem" [JS.Undefined]] ∧
  ∃ body, out.2 = Fulfilled (Wire.mk 200 body).
Proof. repeat split; try reflexivity. eexists. reflexivity. Qed.

(** *** Registration *)

Section Registration.

Context {W Ctx : Type}.

(** What [addRoute] goes by: a method whose own path holds no colon is
    appended to the static routes under the concatenated path; one whose
    own path holds a colon is appended to the dynamic routes under the
    pattern compiled from the concatenated path. *)
Lemma addMethod_classifies (prefix : string) (r : Router W Ctx) (m : Method W Ctx) :
  m_name m ≠ "constructor" →
  (JSString.includes (m_path m) ":" = false →
   addMethod prefix r m
   = Some (mkRouter
             (staticRoutes r ++
                [mkStatic (m_method m) (prefix +:+ m_path m) (m_handler m) (m_guards m)])
             (dynamicRoutes r) (middlewares r) (logger r))) ∧
  (JSString.includes (m_path m) ":" = true →
   ∀ pattern, convertToRegExp (prefix +:+ m_path m) = Some pattern →
   addMethod prefix r m
   = Some (mkRouter (staticRoutes r)
             (dynamicRoutes r ++
                [mkDynamic (m_method m) pattern (m_handler m) (m_guards m)])
             (middlewares r) (logger r))).
Proof.
  intros Hname%String.eqb_neq. unfold addMethod. rewrite Hname.
  split; intros Hcolon; rewrite Hcolon; [done|].
  by intros pattern ->.
Qed.

End Registration.

Example use_appends :
  use Sample.failing (use Sample.quiet (useLogger Sample.quiet createRouter))
  = mkRouter [] [] [Sample.quiet; Sample.failing] (Some Sample.quiet).
Proof. reflexivity. Qed.

(** C8 (the code departs from the claim). The template
    [/users/:id/profile], built from the prefix [/users/:id] and the method
    path [/profile], holds a placeholder, but [addRoute] looks for the
    colon in the method path alone and registers the route as static,
    under the literal path. *)
Theorem prefix_placeholder_registered_static :
  noKey ("/users/:id" +:+ "/profile") = false ∧
  addRoute Sample.ProfileController createRouter = Some Sample.profileRouter ∧
  dynamicRoutes Sample.profileRouter = [] ∧
  sr_path <$> staticRoutes Sample.profileRouter = ["/users/:id/profile"] ∧
  (handleRequest Sample.profileRouter tt
     (Sample.start (Sample.get "/users/42/profile"))).2
  = Fulfilled (errorHandler (newError UndefinedPathError None)).
Proof. repeat split; reflexivity. Qed.

(** *** The dispatch pipeline *)

Section Pipeline.

Context {W Ctx : Type}.

Implicit Types (r : Router W Ctx) (st : State W) (context : Ctx).

Lemma perform_eq {A} (c : Call) (cb : Callback W A) st ev w res :
  cb (event st) (world st) = (ev, w, res) →
  perform c cb st = (mkState ev w (trace st ++ [c]), res).
Proof. intros H. unfold perform. by rewrite H. Qed.

(** [tryBlock] is the preamble followed by route resolution. *)
Lemma tryBlock_split r httpMethod path context st :
  tryBlock r httpMethod path context st
  = bind (preamble r context) (λ _, resolve r httpMethod path context) st.
Proof.
  unfold tryBlock, preamble, resolve, lookup, bind.
  destruct (runLogger r context st) as [st1 [e|[]]]; [done|].
  destruct (runMiddlewares _ _ _ st1) as [st2 [e|[]]]; [done|].
  destruct (findStatic _ _ _) as [route|]; [done|].
  unfold ret. destruct (findDynamic _ _ st2) as [st3 [e|[route|]]]; done.
Qed.

(** **** Guards *)

Lemma processGuards_passed guards i context st st' b :
  processGuards guards i context st = (st', Returned b) →
  b = true ∧ trace st' = trace st ++ (CallGuard <$> seq i (length guards)).
Proof.
  revert i st. induction guards as [|g rest IH]; intros i st; simpl.
  - intros [= <- <-]. by rewrite app_nil_r.
  - unfold bind, perform.
    destruct (g context (event st) (world st)) as [[ev w] [e|[]]]; [done| |done].
    intros [-> Htr]%IH. split; [done|]. rewrite Htr. simpl.
    by rewrite <- app_assoc.
Qed.

(** The guard at position [n] is the first not to answer [true]: the
    guards after it are not called. *)
Lemma processGuards_stop guards n i context st st1 g ev w res :
  processGuards (take n guards) i context st = (st1, Returned true) →
  guards !! n = Some g →
  g context (event st1) (world st1) = (ev, w, res) →
  res ≠ Returned true →
  processGuards guards i context st
  = (mkState ev w (trace st ++ (CallGuard <$> seq i (S n))),
     match res with
     | Threw e => Threw e
     | Returned _ => Threw (newError ForbiddenError None)
     end).
Proof.
  revert guards i st. induction n as [|n IH]; intros guards i st Hpre Hg Hcall Hres.
  - destruct guards as [|g' rest]; [done|]. simpl in *.
    injection Hg as ->. injection Hpre as <-.
    unfold bind. rewrite (perform_eq _ _ _ _ _ _ Hcall).
    destruct res as [e|[]]; done.
  - destruct guards as [|g' rest]; [done|]. simpl in Hpre, Hg.
    simpl processGuards. unfold bind in *. unfold perform in *.
    destruct (g' context (event st) (world st)) as [[ev' w'] [e|[]]]; [done| |done].
    rewrite (IH _ _ _ Hpre Hg Hcall Hres). simpl.
    by rewrite <- app_assoc.
Qed.

(** **** Logger and middlewares *)

Lemma runLogger_done r context st stL :
  runLogger r context st = (stL, Returned tt) →
  trace stL = trace st ++ preambleCalls r 0.
Proof.
  unfold runLogger, preambleCalls, perform, ret. simpl. rewrite app_nil_r.
  destruct (logger r) as [l|].
  - destruct (l context _ _) as [[ev w] res]. by intros [= <- _].
  - intros [= <-]. by rewrite app_nil_r.
Qed.

Lemma runMiddlewares_done ms i context st st' :
  runMiddlewares ms i context st = (st', Returned tt) →
  trace st' = trace st ++ (CallMiddleware <$> seq i (length ms)).
Proof.
  revert i st. induction ms as [|m rest IH]; intros i st; simpl.
  - intros [= <-]. by rewrite app_nil_r.
  - unfold bind, perform.
    destruct (m context (event st) (world st)) as [[ev w] [e|[]]]; [done|].
    intros Htr%IH. rewrite Htr. simpl. by rewrite <- app_assoc.
Qed.


Lemma preamble_done r context st st0 :
  preamble r context st = (st0, Returned tt) →
  trace st0 = trace st ++ preambleCalls r (length (middlewares r)).
Proof.
  unfold preamble, bind.
  destruct (runLogger r context st) as [stL [e|[]]] eqn:HL; [done|].
  intros Hm%runMiddlewares_done. apply runLogger_done in HL.
  rewrite Hm, HL. unfold preambleCalls. simpl. by rewrite app_nil_r, <- app_assoc.
Qed.

(** **** handleRequest, stage by stage *)

Lemma handleRequest_caught r context st st1 e :
  tryBlock r (Event.httpMethod (event st)) (Event.path (event st)) context st
  = (st1, Threw e) →
  handleRequest r context st
  = (record (ConsoleError e) st1, Fulfilled (errorHandler e)).
Proof. intros H. unfold handleRequest. by rewrite H. Qed.

Lemma handleRequest_finish r context st st0 :
  preamble r context st = (st0, Returned tt) →
  handleRequest r context st
  = finish r (Event.httpMethod (event st)) (Event.path (event st)) context st0.
Proof.
  intros H. unfold handleRequest, finish. rewrite tryBlock_split.
  unfold bind at 1. rewrite H.
  destruct (resolve _ _ _ _ st0) as [st1 [e|h]]; [done|].
  unfold invokeHandler, bind, settle, perform, ret.
  destruct (bindParams _ _ _) as [e|args]; [done|].
  by destruct (call h args _ _) as [[ev w] [e|res]].
Qed.

(** **** Route lookup *)

Lemma match_head s re match_ :
  RegExp.match_ s re = Some match_ → match_ !! 0 = Some s.
Proof.
  unfold RegExp.match_. destruct (RegExp.matchNodes _ _); simpl; [|done].
  by intros [= <-].
Qed.

(** What the dynamic lookup does: nothing when no pattern matches the
    path; otherwise it selects the first route whose pattern matches and
    stores the parameters extracted for it in the request. *)
Lemma findDynamic_spec (routes : list (DynamicRoute W Ctx)) path st :
  (findDynamic routes path st = (st, Returned None) ∧
   ∀ route, route ∈ routes → RegExp.match_ path (dr_path route) = None) ∨
  (∃ before route after match_,
     routes = before ++ route :: after ∧
     (∀ route', route' ∈ before → RegExp.match_ path (dr_path route') = None) ∧
     RegExp.match_ path (dr_path route) = Some match_ ∧
     findDynamic routes path st
     = (mkState
          (Event.setPathParameters (extractParams (dr_path route) match_) (event st))
          (world st) (trace st),
        Returned (Some route))).
Proof.
  induction routes as [|route rest IH]; simpl.
  - left. split; [done|]. intros route H. by apply elem_of_nil in H.
  - destruct (RegExp.match_ path (dr_path route)) as [match_|] eqn:Hm.
    + right. exists [], route, rest, match_.
      rewrite (bool_decide_eq_true_2 _ (match_head _ _ _ Hm)).
      split_and!; [done| |done..]. intros route' H. by apply elem_of_nil in H.
    + destruct IH as [[Hnone Hall]|(before & found & after & match_ & -> & Hb & Hf & Hres)].
      * left. split; [done|]. intros route' [->|H]%elem_of_cons; auto.
      * right. exists (route :: before), found, after, match_.
        split_and!; [done| |done..]. intros route' [->|H]%elem_of_cons; auto.
Qed.

Lemma lookup_trace r httpMethod path st0 st1 found :
  lookup r httpMethod path st0 = (st1, found) → trace st1 = trace st0.
Proof.
  unfold lookup, bind, ret. destruct (findStatic _ _ _); [by intros [= <- _]|].
  destruct (findDynamic_spec (dynamicRoutes r) path st0)
    as [[-> _]|(? & ? & ? & ? & _ & _ & _ & ->)]; by intros [= <- _].
Qed.

(** **** What runs after the preamble *)

Lemma processGuards_calls guards i context st st' (res : Result bool) :
  processGuards guards i context st = (st', res) →
  ∃ k, trace st' = trace st ++ (CallGuard <$> seq i k).
Proof.
  revert i st. induction guards as [|g rest IH]; intros i st; simpl.
  - intros [= <- _]. exists 0. by rewrite app_nil_r.
  - unfold bind, perform.
    destruct (g context (event st) (world st)) as [[ev w] [e|[]]].
    + intros [= <- _]. by exists 1.
    + intros [k Hk]%IH. exists (S k). rewrite Hk. simpl. by rewrite <- app_assoc.
    + intros [= <- _]. by exists 1.
Qed.


End Pipeline.

(** *** Guards *)

Section Guards.

Context {W Ctx : Type}.

(** C5. The guards of the matched route run in registration order. When the
    guard at position [n] is the first not to answer [true], the trace
    holds the calls of the guards [0..n] and then a single error log: no
    later guard and no handler is called. If that guard answered [false]
    the error is a [ForbiddenError] and the answer has status 403; if it
    threw, its own error is the one handed to the error translator. *)
Theorem guards_short_circuit (r : Router W Ctx) (context : Ctx)
    (st st0 st1 st2 : State W) guards handler n g ev w res :
  preamble r context st = (st0, Returned tt) →
  lookup r (Event.httpMethod (event st)) (Event.path (event st)) st0
  = (st1, Returned (Some (guards, handler))) →
  processGuards (take n guards) 0 context st1 = (st2, Returned true) →
  guards !! n = Some g →
  g context (event st2) (world st2) = (ev, w, res) →
  res ≠ Returned true →
  let error :=
    match res with
    | Threw e => e
    | Returned _ => Custom ForbiddenError (defaultMessage ForbiddenError)
    end in
  handleRequest r context st
  = (mkState ev w
       (trace st ++ preambleCalls r (length (middlewares r))
          ++ (CallGuard <$> seq 0 (S n)) ++ [ConsoleError error]),
     Fulfilled (errorHandler error))
  ∧ (res = Returned false →
     errorHandler error
     = Wire.mk 403
         (JSON.stringifyObject
            [("message", JS.Str (defaultMessage ForbiddenError));
             ("error", JS.Str "ForbiddenError")])).
Proof.
  intros Hpre Hlook Hpass Hg Hcall Hres error. split; [|by intros ->].
  pose proof (processGuards_stop _ _ _ _ _ _ _ _ _ _ Hpass Hg Hcall Hres) as Hstop.
  rewrite (handleRequest_caught r context st
             (mkState ev w (trace st1 ++ (CallGuard <$> seq 0 (S n)))) error).
  - unfold record. simpl. rewrite (lookup_trace _ _ _ _ _ _ Hlook).
    rewrite (preamble_done _ _ _ _ Hpre). by rewrite <- !app_assoc.
  - rewrite tryBlock_split. unfold bind at 1. rewrite Hpre.
    unfold resolve, bind. rewrite Hlook, Hstop.
    subst error. by destruct res as [e|[]].
Qed.

End Guards.

(** The second of three guards denies: guards 0 and 1 run, the third does
    not, and the answer is the 403 of [ForbiddenError]. *)
Lemma guards_short_circuit_witness :
  handleRequest Sample.secureRouter tt (Sample.start (Sample.get "/secure"))
  = (mkState (Sample.get "/secure") tt
       [CallLogger; CallMiddleware 0; CallMiddleware 1; CallGuard 0; CallGuard 1;
        ConsoleError (Custom ForbiddenError (defaultMessage ForbiddenError))],
     Fulfilled (errorHandler (Custom ForbiddenError (defaultMessage ForbiddenError))))
  ∧ (handleRequest Sample.crashingRouter tt (Sample.start (Sample.get "/secure"))).2
    = Fulfilled (Wire.mk 500
        (JSON.stringifyObject
           [("message", JS.Str "token store unreachable"); ("error", JS.Str "Error")])).
Proof.
  split.
  - set (st0 := mkState (Sample.get "/secure") tt
                  [CallLogger; CallMiddleware 0; CallMiddleware 1]).
    apply (guards_short_circuit Sample.secureRouter tt
             (Sample.start (Sample.get "/secure")) st0 st0
             (mkState (Sample.get "/secure") tt
                [CallLogger; CallMiddleware 0; CallMiddleware 1; CallGuard 0])
             [Sample.allow; Sample.deny; Sample.allow] Sample.secureEndpoint
             1 Sample.deny (Sample.get "/secure") tt (Returned false));
      (reflexivity || discriminate).
  - set (st0 := mkState (Sample.get "/secure") tt
                  [CallLogger; CallMiddleware 0; CallMiddleware 1]).
    pose proof (guards_short_circuit Sample.crashingRouter tt
             (Sample.start (Sample.get "/secure")) st0 st0
             (mkState (Sample.get "/secure") tt
                [CallLogger; CallMiddleware 0; CallMiddleware 1; CallGuard 0])
             [Sample.allow; Sample.crashing; Sample.allow] Sample.secureEndpoint
             1 Sample.crashing (Sample.get "/secure") tt
             (Threw (Other "Error" "token store unreachable"))
             eq_refl eq_refl eq_refl eq_refl eq_refl
             (λ H, eq_ind (Threw (Other "Error" "token store unreachable"))
                     (λ x, match x with Threw _ => True | Returned _ => False end)
                     I (Returned true) H)) as [H _].
    rewrite H. reflexivity.
Defined.

(** *** Logger and middlewares *)

Section Middlewares.

Context {W Ctx : Type}.


End Middlewares.


(** *** Requests no route answers *)

Section UndefinedPath.

Context {W Ctx : Type}.

(** When the preamble is through, no static route is registered for the
    method and path of the request and the pattern of no dynamic route
    matches its path, the answer is the 404 of [UndefinedPathError]. *)
Lemma undefined_path_404 (r : Router W Ctx) (context : Ctx) (st st0 : State W) :
  preamble r context st = (st0, Returned tt) →
  findStatic (staticRoutes r) (Event.httpMethod (event st)) (Event.path (event st))
  = None →
  (∀ route, route ∈ dynamicRoutes r →
     RegExp.match_ (Event.path (event st)) (dr_path route) = None) →
  handleRequest r context st
  = (record (ConsoleError (newError UndefinedPathError None)) st0,
     Fulfilled (Wire.mk 404
       (JSON.stringifyObject
          [("message", JS.Str (defaultMessage UndefinedPathError));
           ("error", JS.Str "UndefinedPathError")]))).
Proof.
  intros Hpre Hstatic Hdynamic.
  rewrite (handleRequest_finish _ _ _ _ Hpre).
  unfold finish, resolve, lookup, bind, ret. rewrite Hstatic.
  destruct (findDynamic_spec (dynamicRoutes r) (Event.path (event st)) st0)
    as [[-> _]|(before & route & after & match_ & Heq & _ & Hm & _)]; [done|].
  rewrite Hdynamic in Hm; [done|].
  rewrite Heq. apply elem_of_app. right. apply list_elem_of_here.
Qed.

End UndefinedPath.

Example nope_404 :
  (handleRequest Sample.itemRouter tt (Sample.start (Sample.get "/nope"))).2
  = Fulfilled (Wire.mk 404
      (JSON.stringifyObject
         [("message", JS.Str (defaultMessage UndefinedPathError));
          ("error", JS.Str "UndefinedPathError")])).
Proof. reflexivity. Qed.

(** *** Static routes come first *)

Section StaticFirst.

Context {W Ctx : Type}.

Lemma findStatic_some (routes : list (StaticRoute W Ctx)) httpMethod path route :
  findStatic routes httpMethod path = Some route →
  route ∈ routes ∧ sr_method route = httpMethod ∧ sr_path route = path.
Proof.
  intros [Hin [Hm Hp]%andb_true_iff]%find_some.
  apply String.eqb_eq in Hm, Hp. by rewrite list_elem_of_In.
Qed.

Lemma findStatic_hit (routes : list (StaticRoute W Ctx)) route :
  route ∈ routes →
  is_Some (findStatic routes (sr_method route) (sr_path route)).
Proof.
  intros Hin%list_elem_of_In.
  destruct (findStatic routes _ _) as [first|] eqn:Hfind; [by eexists|].
  pose proof (find_none _ _ Hfind _ Hin) as Hno. simpl in Hno.
  by rewrite !String.eqb_refl in Hno.
Qed.

(** The static lookup answers with the earliest registered route that has
    the method and the path. *)
Lemma findStatic_first (routes : list (StaticRoute W Ctx)) httpMethod path first :
  findStatic routes httpMethod path = Some first →
  ∃ before after,
    routes = before ++ first :: after ∧
    ∀ other, other ∈ before →
      ¬ (sr_method other = httpMethod ∧ sr_path other = path).
Proof.
  induction routes as [|route rest IH]; simpl; [done|].
  destruct (String.eqb (sr_method route) httpMethod
            && String.eqb (sr_path route) path) eqn:Htest.
  - intros [= ->]. exists [], rest. split; [done|].
    intros other H. by apply elem_of_nil in H.
  - intros (before & after & -> & Hbefore)%IH.
    exists (route :: before), after. split; [done|].
    intros other [->|H]%elem_of_cons; [|by apply Hbefore].
    intros [Hm Hp]. by rewrite Hm, Hp, !String.eqb_refl in Htest.
Qed.

(** C4, as the code has it. When a static route is registered for the
    method and the exact path of the request, the static lookup answers
    before any dynamic route is looked at, and it answers with [first],
    the earliest registered static route with that method and path: no
    route registered before [first] has them, and the given route is
    [first] or one registered after it (it is [first] when it is the only
    one). The result of the dispatch does not depend on the dynamic routes
    at all, whatever their patterns and whenever they were registered, and
    once the preamble and the guards of [first] are through, it is the
    handler of [first] that is called. *)
Theorem static_route_first (r : Router W Ctx) (context : Ctx) (st : State W) route :
  route ∈ staticRoutes r →
  sr_method route = Event.httpMethod (event st) →
  sr_path route = Event.path (event st) →
  ∃ first before after,
    findStatic (staticRoutes r) (Event.httpMethod (event st)) (Event.path (event st))
    = Some first ∧
    staticRoutes r = before ++ first :: after ∧
    (∀ other, other ∈ before →
       ¬ (sr_method other = sr_method route ∧ sr_path other = sr_path route)) ∧
    sr_method first = sr_method route ∧
    sr_path first = sr_path route ∧
    (route = first ∨ route ∈ after) ∧
    ((∀ other, other ∈ staticRoutes r → sr_method other = sr_method route →
        sr_path other = sr_path route → other = route) → first = route) ∧
    (∀ dynamic,
       handleRequest (mkRouter (staticRoutes r) dynamic (middlewares r) (logger r))
         context st
       = handleRequest r context st) ∧
    (∀ st0 st1 args,
       preamble r context st = (st0, Returned tt) →
       processGuards (sr_guards first) 0 context st0 = (st1, Returned true) →
       bindParams (parameters (sr_handler first)) (event st1) [] = Returned args →
       handleRequest r context st = settle (sr_handler first) args st1).
Proof.
  intros Hin Hm Hp.
  destruct (findStatic_hit _ _ Hin) as [first Hfind]. rewrite Hm, Hp in Hfind.
  destruct (findStatic_some _ _ _ _ Hfind) as (Hfin & Hfm & Hfp).
  destruct (findStatic_first _ _ _ _ Hfind) as (before & after & Heq & Hbefore).
  exists first, before, after.
  split; [done|]. split; [done|]. split; [by rewrite Hm, Hp|].
  split; [congruence|]. split; [congruence|]. split; [|split; [|split]].
  - rewrite Heq in Hin.
    apply elem_of_app in Hin as [Hin|[->|Hin]%elem_of_cons]; [|by left|by right].
    by destruct (Hbefore _ Hin).
  - intros Huniq. apply Huniq; congruence.
  - intros dynamic. unfold handleRequest, tryBlock, runLogger. simpl.
    by rewrite Hfind.
  - intros st0 st1 args Hpre Hguards Hargs.
    rewrite (handleRequest_finish _ _ _ _ Hpre).
    unfold finish, resolve, lookup, bind, ret. rewrite Hfind, Hguards. simpl.
    by rewrite Hargs.
Qed.

End StaticFirst.

(** Two static routes are registered for [GET /x]. The second one has the
    method and the path of the request, and the handler called is the one
    of the first. *)
Lemma later_static_route_not_invoked :
  Sample.secondRoute ∈ staticRoutes Sample.duplicateRouter ∧
  sr_method Sample.secondRoute = Event.httpMethod (Sample.get "/x") ∧
  sr_path Sample.secondRoute = Event.path (Sample.get "/x") ∧
  handleRequest Sample.duplicateRouter tt (Sample.start (Sample.get "/x"))
  = (mkState (Sample.get "/x") tt [CallHandler "firstX" []],
     Fulfilled (Wire.mk 200 (JSON.stringifyObject [("message", JS.Str "first")]))).
Proof.
  split; [apply list_elem_of_further, list_elem_of_here|].
  split; [reflexivity|]. split; reflexivity.
Qed.

(** [GET /users/me] with the dynamic route [GET /users/:id] registered as
    well: its pattern matches the path too, and the static handler is the
    one called. *)
Lemma static_route_first_witness :
  is_Some (RegExp.match_ "/users/me" (dr_path Sample.itemRoute)) ∧
  handleRequest Sample.mixedRouter tt (Sample.start (Sample.get "/users/me"))
  = (mkState (Sample.get "/users/me") tt [CallHandler "getMe" []],
     Fulfilled (Wire.mk 200
       (JSON.stringifyObject [("message", JS.Str "Current user")]))).
Proof.
  split; [by eexists|].
  destruct (static_route_first Sample.mixedRouter tt
              (Sample.start (Sample.get "/users/me")) Sample.meRoute)
    as (first & before & after & Hfind & _ & _ & _ & _ & _ & _ & _ & Hrun);
    [apply list_elem_of_here|reflexivity|reflexivity|].
  injection Hfind as <-.
  apply (Hrun (Sample.start (Sample.get "/users/me"))
           (Sample.start (Sample.get "/users/me")) []); reflexivity.
Defined.

(** *** What the dispatch changes in the request *)

Section Frame.

Context {W Ctx : Type}.

Implicit Types (r : Router W Ctx) (st : State W) (context : Ctx).

Lemma keeps_ret {A} (a : A) : keeps (W := W) (ret a).
Proof. done. Qed.

Lemma keeps_throw {A} e : keeps (W := W) (A := A) (throw e).
Proof. done. Qed.

Lemma keeps_bind {A B} (m : M W A) (k : A → M W B) :
  keeps m → (∀ a, keeps (k a)) → keeps (bind m k).
Proof.
  intros Hm Hk st. unfold bind. specialize (Hm st).
  destruct (m st) as [st' [e|a]]; simpl in *; [done|].
  by rewrite Hk.
Qed.

Lemma keeps_perform {A} c (cb : Callback W A) :
  keepsRequest cb → keeps (perform c cb).
Proof.
  intros H st. unfold perform. specialize (H (event st) (world st)).
  by destruct (cb _ _) as [[ev w] res].
Qed.

Lemma keeps_runLogger r context :
  (∀ l, logger r = Some l → keepsRequest (l context)) →
  keeps (runLogger r context).
Proof.
  intros H. unfold runLogger. destruct (logger r) as [l|]; [|apply keeps_ret].
  by apply keeps_perform, H.
Qed.

Lemma keeps_runMiddlewares (ms : list (Middleware W Ctx)) i context :
  (∀ m, m ∈ ms → keepsRequest (m context)) →
  keeps (runMiddlewares ms i context).
Proof.
  revert i. induction ms as [|m rest IH]; intros i H; simpl; [apply keeps_ret|].
  apply keeps_bind.
  - apply keeps_perform, H, list_elem_of_here.
  - intros _. apply IH. intros m' Hm'. by apply H, list_elem_of_further.
Qed.

Lemma keeps_processGuards (guards : list (Guard W Ctx)) i context :
  (∀ g, g ∈ guards → keepsRequest (g context)) →
  keeps (processGuards guards i context).
Proof.
  revert i. induction guards as [|g rest IH]; intros i H; simpl; [apply keeps_ret|].
  apply keeps_bind.
  - apply keeps_perform, H, list_elem_of_here.
  - intros [|]; [|apply keeps_throw].
    apply IH. intros g' Hg'. by apply H, list_elem_of_further.
Qed.

Lemma keeps_preamble r context :
  appKeepsRequest r context → keeps (preamble r context).
Proof.
  intros (Hl & Hm & _). apply keeps_bind; [by apply keeps_runLogger|].
  intros _. by apply keeps_runMiddlewares.
Qed.

(** Once a route is found, its guards, the binding of the arguments and
    its handler leave the request as the lookup left it. *)
Lemma invoke_event (guards : list (Guard W Ctx)) (h : Handler W) context st1 :
  (∀ g, g ∈ guards → keepsRequest (g context)) →
  (∀ args, keepsRequest (call h args)) →
  event
    (match bind (processGuards guards 0 context) (λ _, ret h) st1 with
     | (st2, Threw error) =>
         (record (ConsoleError error) st2, Fulfilled (errorHandler error))
     | (st2, Returned handler) =>
         match bindParams (parameters handler) (event st2) [] with
         | Returned args => settle handler args st2
         | Threw error => (st2, Rejected error)
         end
     end).1 = event st1.
Proof.
  intros Hg Hh. unfold bind.
  pose proof (keeps_processGuards guards 0 context Hg st1) as Hkeep.
  destruct (processGuards guards 0 context st1) as [st2 [e|b]]; simpl in *; [done|].
  destruct (bindParams _ _ _) as [e|args]; simpl; [done|].
  unfold settle. specialize (Hh args (event st2) (world st2)).
  destruct (call h args _ _) as [[ev w] res]. simpl in *. by subst ev.
Qed.

(** From the state the preamble leaves, the request is changed by the
    dynamic lookup alone, and only when it selects a route: the request
    then carries the parameters extracted for that route. *)
Lemma finish_event r context httpMethod path st0 :
  appKeepsRequest r context →
  let ev' := event (finish r httpMethod path context st0).1 in
  match findStatic (staticRoutes r) httpMethod path with
  | Some _ => ev' = event st0
  | None =>
      match (findDynamic (dynamicRoutes r) path st0).2 with
      | Returned (Some route) =>
          route ∈ dynamicRoutes r ∧
          ∃ match_,
            RegExp.match_ path (dr_path route) = Some match_ ∧
            ev' = Event.setPathParameters (extractParams (dr_path route) match_)
                    (event st0)
      | _ => ev' = event st0
      end
  end.
Proof.
  intros (_ & _ & Hs & Hd). unfold finish, resolve, lookup.
  destruct (findStatic _ _ _) as [route|] eqn:Hfind.
  - apply findStatic_some in Hfind as (Hin & _).
    destruct (Hs _ Hin) as [Hg Hh]. unfold bind at 1, ret at 1.
    by rewrite (invoke_event _ _ _ _ Hg Hh).
  - destruct (findDynamic_spec (dynamicRoutes r) path st0)
      as [[Hres _]|(before & route & after & match_ & Heq & _ & Hm & Hres)];
      rewrite Hres; simpl.
    + unfold bind at 1. unfold bind at 1. by rewrite Hres.
    + assert (Hin : route ∈ dynamicRoutes r).
      { rewrite Heq. apply elem_of_app. right. apply list_elem_of_here. }
      split; [done|]. exists match_. split; [done|].
      destruct (Hd _ Hin) as [Hg Hh].
      unfold bind at 1. unfold bind at 1. rewrite Hres. unfold ret at 1.
      by rewrite (invoke_event _ _ _ _ Hg Hh).
Qed.

(** C10. When no callback of the application changes the request, the
    request that leaves the dispatch has the method, path, body, headers
    and query parameters it came with. It is the very request that came
    in unless the dispatch selected a dynamic route (the preamble went
    through, no static route was found, the dynamic lookup answered with
    the route); then it is that request with its path parameters replaced
    by the ones extracted for the selected route. *)
Theorem dispatch_frame r context st :
  appKeepsRequest r context →
  let ev' := event (handleRequest r context st).1 in
  sameRequest (event st) ev' ∧
  match selected r context st with
  | None => ev' = event st
  | Some route =>
      route ∈ dynamicRoutes r ∧
      ∃ match_,
        RegExp.match_ (Event.path (event st)) (dr_path route) = Some match_ ∧
        ev' = Event.setPathParameters (extractParams (dr_path route) match_)
                (event st)
  end.
Proof.
  intros Happ.
  assert (Hgoal : let ev' := event (handleRequest r context st).1 in
            match selected r context st with
            | None => ev' = event st
            | Some route =>
                route ∈ dynamicRoutes r ∧
                ∃ match_,
                  RegExp.match_ (Event.path (event st)) (dr_path route) = Some match_ ∧
                  ev' = Event.setPathParameters
                          (extractParams (dr_path route) match_) (event st)
            end).
  { pose proof (keeps_preamble r context Happ st) as Hpre. unfold selected.
    destruct (preamble r context st) as [st0 [e|[]]] eqn:Hp; simpl in Hpre.
    - simpl. rewrite (handleRequest_caught _ _ _ st0 e); [done|].
      rewrite tryBlock_split. unfold bind. by rewrite Hp.
    - simpl. rewrite (handleRequest_finish _ _ _ _ Hp).
      pose proof (finish_event r context (Event.httpMethod (event st))
                    (Event.path (event st)) st0 Happ) as Hfin.
      simpl in Hfin. rewrite Hpre in Hfin.
      destruct (findStatic _ _ _); [done|].
      by destruct (findDynamic _ _ st0).2 as [e|[route|]]. }
  simpl in *. split; [|done].
  destruct (selected r context st) as [route|].
  - by destruct Hgoal as (_ & match_ & _ & ->).
  - by rewrite Hgoal.
Qed.

End Frame.

(** [GET /users/42] on the router of the README's dynamic route, whose
    handler leaves the request alone: the route is selected and only the
    path parameters change. [GET /nope] selects no route: the request is
    left as it came. *)
Lemma dispatch_frame_witness :
  let ev' := event (handleRequest Sample.itemRouter tt
                      (Sample.start (Sample.get "/users/42"))).1 in
  let ev'' := event (handleRequest Sample.itemRouter tt
                       (Sample.start (Sample.get "/nope"))).1 in
  sameRequest (Sample.get "/users/42") ev' ∧
  Event.pathParameters ev' ≠ Event.pathParameters (Sample.get "/users/42") ∧
  ev'' = Sample.get "/nope".
Proof.
  assert (Happ : appKeepsRequest Sample.itemRouter tt).
  { split_and!.
    - intros l H. discriminate H.
    - intros m H. by apply elem_of_nil in H.
    - intros route H. by apply elem_of_nil in H.
    - intros route ->%list_elem_of_singleton. split.
      + intros g H. by apply elem_of_nil in H.
      + intros args ev w. reflexivity. }
  split; [|split; [by vm_compute|]].
  - apply (dispatch_frame Sample.itemRouter tt
             (Sample.start (Sample.get "/users/42")) Happ).
  - apply (proj2 (dispatch_frame Sample.itemRouter tt
                    (Sample.start (Sample.get "/nope")) Happ)).
Defined.

(** *** Parameter binding *)

Example addRoute_user :
  addRoute Sample.UserController createRouter = Some Sample.userRouter.
Proof. reflexivity. Qed.

(** The descriptor [@Body('name')] records for [createUser] is not the one
    [invokeHandler] reads for the bound method: the handler gets no
    argument. It gets the field once the descriptor stands where
    [invokeHandler] looks. *)
Example createUser_ada :
  Decorators.parameters Sample.readmeStore !! (Sample.userPrototype, "createUser")
  = Some [mkParam 0 "body" (Some "name")] ∧
  parameters Sample.createUser = [] ∧
  (handleRequest Sample.userRouter tt
     (Sample.start (Sample.post "/users/"
        (Some (JSON.stringifyObject [("name", JS.Str "Ada")]))))).2
  = Fulfilled (Wire.mk 201
      (JSON.stringifyObject [("message", JS.Str "User undefined created!")])) ∧
  parameters Sample.createUserPlaced = [mkParam 0 "body" (Some "name")] ∧
  (handleRequest Sample.placedRouter tt
     (Sample.start (Sample.post "/users/"
        (Some (JSON.stringifyObject [("name", JS.Str "Ada")]))))).2
  = Fulfilled (Wire.mk 201
      (JSON.stringifyObject [("message", JS.Str "User Ada created!")])).
Proof. split_and!; reflexivity. Qed.

Section Binding.

Context {W : Type}.

Lemma bindParam_malformed ev p text :
  Event.body ev = Some text → text ≠ EmptyString → JSON.parse text = None →
  bindParam ev p = Threw syntaxError ∨
  type p ≠ "body" ∧ ∃ v, bindParam ev p = Returned v.
Proof.
  intros Hbody Hne Hparse. unfold bindParam.
  destruct (String.eqb_spec (type p) "body") as [Ht|Ht].
  - left. rewrite Hbody. destruct text; [done|]. simpl. by rewrite Hparse.
  - right. split; [done|]. repeat case_match; by eexists.
Qed.

Lemma bindParams_malformed ps ev args text :
  Event.body ev = Some text → text ≠ EmptyString → JSON.parse text = None →
  (∃ p, p ∈ ps ∧ type p = "body") →
  bindParams ps ev args = Threw syntaxError.
Proof.
  intros Hbody Hne Hparse. revert args.
  induction ps as [|p rest IH]; intros args (q & Hq & Ht).
  - by apply elem_of_nil in Hq.
  - simpl.
    destruct (bindParam_malformed ev p text Hbody Hne Hparse)
      as [->|(Hp & v & ->)]; [done|].
    apply IH. exists q. split; [|done].
    apply elem_of_cons in Hq as [->|Hq]; done.
Qed.

(** Without a [Body] descriptor the body is not read. *)
Lemma bindParams_other ps ev args :
  (∀ p, p ∈ ps → type p ≠ "body") →
  ∃ args', bindParams ps ev args = Returned args'.
Proof.
  revert args. induction ps as [|p rest IH]; intros args Hps; simpl; [by eexists|].
  assert (Hv : ∃ v, bindParam ev p = Returned v).
  { unfold bindParam.
    destruct (String.eqb_spec (type p) "body") as [Ht|Ht];
      [by destruct (Hps p (list_elem_of_here _ _))|].
    repeat case_match; by eexists. }
  destruct Hv as [v ->]. apply IH. intros q Hq. by apply Hps, list_elem_of_further.
Qed.

Lemma invokeHandler_calls (h : Handler W) (st : State W) args :
  bindParams (parameters h) (event st) [] = Returned args →
  trace (invokeHandler h st).1 = trace st ++ [CallHandler (name h) args].
Proof.
  intros Hargs. unfold invokeHandler, bind, perform, ret. rewrite Hargs.
  by destruct (call h args _ _) as [[ev w] [e|res]].
Qed.

(** C3, as the code has it. The body is present but is not well-formed
    JSON. When the descriptors [invokeHandler] reads for the handler hold
    a [Body] descriptor, binding throws the [SyntaxError] of [JSON.parse]
    before the handler is called: the state is the one [invokeHandler]
    started in. When they hold none, the body is not parsed: binding goes
    through and the handler is called. The [SyntaxError] is not a
    [CustomError], and the status the error translator has for it is 500,
    under the name [SyntaxError]. *)
Theorem malformed_body_raises (h : Handler W) (st : State W) text :
  Event.body (event st) = Some text →
  text ≠ EmptyString →
  JSON.parse text = None →
  ((∃ p, p ∈ parameters h ∧ type p = "body") →
   invokeHandler h st = (st, Threw syntaxError)) ∧
  ((∀ p, p ∈ parameters h → type p ≠ "body") →
   ∃ args,
     bindParams (parameters h) (event st) [] = Returned args ∧
     trace (invokeHandler h st).1 = trace st ++ [CallHandler (name h) args]) ∧
  errorHandler syntaxError
  = Wire.mk 500
      (JSON.stringifyObject
         [("message", JS.Str (errorMessage syntaxError));
          ("error", JS.Str "SyntaxError")]).
Proof.
  intros Hbody Hne Hparse. split; [|split; [|done]].
  - intros Hp. unfold invokeHandler, bind.
    by rewrite (bindParams_malformed _ _ _ _ Hbody Hne Hparse Hp).
  - intros Hps. destruct (bindParams_other _ (event st) [] Hps) as [args Hargs].
    exists args. split; [done|]. by apply invokeHandler_calls.
Qed.

Lemma setIndex_nil i (v : JS.Value) :
  setIndex [] i v = replicate i JS.Undefined ++ [v].
Proof. unfold setIndex. simpl. by rewrite Nat.sub_0_r. Qed.

(** C9, as the code has it. A [Headers] descriptor with a key (of ASCII
    characters, on which [toLowerCase] is the platform's) is bound to what
    the header mapping gives for the lower-cased key, and the lookup is
    exact. Two keys that differ in case only are bound alike; the header
    stored under the lower-cased key is found; when nothing is stored
    under the lower-cased key, whatever is stored under other casings, the
    value is what a plain object gives for a key it does not hold:
    [undefined], unless the lower-cased key names a member of
    [Object.prototype]. A handler for which [invokeHandler] reads that one
    descriptor is called with that value at the position of the
    descriptor. *)
Theorem header_key_lowercased (ev : Event.t) (i : nat) (key : string) :
  key ≠ EmptyString →
  JSString.isAscii key = true →
  bindParam ev (mkParam i "headers" (Some key))
  = Returned (lookupOpt (Event.headers ev) (JSString.toLowerCase key)) ∧
  (∀ key', key' ≠ EmptyString → JSString.isAscii key' = true →
     JSString.toLowerCase key' = JSString.toLowerCase key →
     bindParam ev (mkParam i "headers" (Some key'))
     = bindParam ev (mkParam i "headers" (Some key))) ∧
  (∀ hs v, Event.headers ev = Some hs →
     hs !! JSString.toLowerCase key = Some v →
     bindParam ev (mkParam i "headers" (Some key)) = Returned (JS.Str v)) ∧
  (∀ hs, Event.headers ev = Some hs →
     hs !! JSString.toLowerCase key = None →
     bindParam ev (mkParam i "headers" (Some key))
     = Returned (JS.inherited (JSString.toLowerCase key)) ∧
     (JSString.toLowerCase key ∉ JS.objectPrototype →
      bindParam ev (mkParam i "headers" (Some key)) = Returned JS.Undefined)) ∧
  (∀ (h : Handler W) (st : State W),
     event st = ev →
     parameters h = [mkParam i "headers" (Some key)] →
     trace (invokeHandler h st).1
     = trace st ++
       [CallHandler (name h)
          (replicate i JS.Undefined ++
           [lookupOpt (Event.headers ev) (JSString.toLowerCase key)])]).
Proof.
  intros Hne _.
  assert (Hbind : ∀ k, k ≠ EmptyString →
            bindParam ev (mkParam i "headers" (Some k))
            = Returned (lookupOpt (Event.headers ev) (JSString.toLowerCase k))).
  { intros k Hk. unfold bindParam. simpl. by destruct k. }
  split_and!.
  - by apply Hbind.
  - intros key' Hne' _ Heq. by rewrite !Hbind, Heq.
  - intros hs v Hh Hv. rewrite Hbind by done. unfold lookupOpt.
    by rewrite Hh, Hv.
  - intros hs Hh Hv. rewrite Hbind by done. unfold lookupOpt.
    rewrite Hh, Hv. split; [done|]. intros Hnot. unfold JS.inherited.
    by rewrite bool_decide_eq_false_2.
  - intros h st <- Hps. apply invokeHandler_calls. rewrite Hps. simpl.
    rewrite Hbind by done. by rewrite setIndex_nil.
Qed.

End Binding.

(** [POST /users/] with the body [{bad], to the README's controller,
    whose [createUser] is declared with [@Body('name')]. The descriptors
    [invokeHandler] reads for the bound method are none, the body is not
    parsed, the handler is called without arguments and the answer is its
    201. Where the descriptor does reach the binding, the binding throws
    and the promise of [handleRequest] rejects with the [SyntaxError], for
    which the error translator has the status 500. Neither answer is a
    response with status 400. *)
Lemma malformed_body_not_400 :
  let st := Sample.start (Sample.post "/users/" (Some "{bad")) in
  JSON.parse "{bad" = None ∧
  Decorators.parameters Sample.readmeStore !! (Sample.userPrototype, "createUser")
  = Some [mkParam 0 "body" (Some "name")] ∧
  handleRequest Sample.userRouter tt st
  = (mkState (Sample.post "/users/" (Some "{bad")) tt [CallHandler "createUser" []],
     Fulfilled (Wire.mk 201
       (JSON.stringifyObject [("message", JS.Str "User undefined created!")]))) ∧
  handleRequest Sample.placedRouter tt st = (st, Rejected syntaxError) ∧
  Wire.statusCode (errorHandler syntaxError) = 500%Z.
Proof. split_and!; reflexivity. Qed.

Lemma malformed_body_raises_witness :
  let st := Sample.start (Sample.post "/users/" (Some "{bad")) in
  invokeHandler Sample.createUserPlaced st = (st, Threw syntaxError) ∧
  trace (invokeHandler Sample.createUser st).1 = [CallHandler "createUser" []] ∧
  Wire.statusCode (errorHandler syntaxError) = 500%Z.
Proof.
  destruct (malformed_body_raises Sample.createUserPlaced
              (Sample.start (Sample.post "/users/" (Some "{bad"))) "{bad")
    as (Hraise & _ & Hanswer); [reflexivity|discriminate|reflexivity|].
  destruct (malformed_body_raises Sample.createUser
              (Sample.start (Sample.post "/users/" (Some "{bad"))) "{bad")
    as (_ & Hcall & _); [reflexivity|discriminate|reflexivity|].
  split; [|split].
  - apply Hraise. exists (mkParam 0 "body" (Some "name")).
    split; [apply list_elem_of_here|reflexivity].
  - destruct Hcall as (args & Hargs & Htrace).
    + intros p Hp. by apply elem_of_nil in Hp.
    + injection Hargs as <-. exact Htrace.
  - rewrite Hanswer. reflexivity.
Defined.

(** The header is stored as [Authorization] and the key of the descriptor
    is [Authorization]: the lookup goes to [authorization] and finds
    nothing, and the handler for which [invokeHandler] reads the descriptor
    is called with [undefined]. (The handler as it is declared, for which
    [invokeHandler] reads no descriptor, is called without arguments,
    under whatever casing the header is stored.) *)
Lemma header_other_casing_not_found :
  JSString.toLowerCase "Authorization" = "authorization" ∧
  Event.headers Sample.withAuthorization ≫= (.!! "Authorization") = Some "Bearer t" ∧
  bindParam Sample.withAuthorization (mkParam 0 "headers" (Some "Authorization"))
  = Returned JS.Undefined ∧
  parameters Sample.whoAmIPlaced = [mkParam 0 "headers" (Some "Authorization")] ∧
  trace (invokeHandler Sample.whoAmIPlaced (Sample.start Sample.withAuthorization)).1
  = [CallHandler "whoAmI" [JS.Undefined]] ∧
  trace (invokeHandler Sample.whoAmI (Sample.start Sample.withAuthorization)).1
  = [CallHandler "whoAmI" []] ∧
  trace (invokeHandler Sample.whoAmI
           (Sample.start Sample.withLowerAuthorization)).1
  = [CallHandler "whoAmI" []].
Proof. split_and!; reflexivity. Qed.

Lemma header_key_lowercased_witness :
  bindParam Sample.withLowerAuthorization (mkParam 0 "headers" (Some "Authorization"))
  = Returned (JS.Str "Bearer t") ∧
  bindParam Sample.withLowerAuthorization (mkParam 0 "headers" (Some "AUTHORIZATION"))
  = bindParam Sample.withLowerAuthorization (mkParam 0 "headers" (Some "Authorization")) ∧
  bindParam Sample.withAuthorization (mkParam 0 "headers" (Some "Authorization"))
  = Returned JS.Undefined ∧
  trace (invokeHandler Sample.whoAmIPlaced (Sample.start Sample.withLowerAuthorization)).1
  = [CallHandler "whoAmI" [JS.Str "Bearer t"]].
Proof.
  pose proof (header_key_lowercased (W := Sample.World) Sample.withLowerAuthorization
                0 "Authorization" ltac:(discriminate) eq_refl)
    as (_ & Hsame & Hfound & _ & Hcall).
  pose proof (header_key_lowercased (W := Sample.World) Sample.withAuthorization
                0 "Authorization" ltac:(discriminate) eq_refl)
    as (_ & _ & _ & Hmissing & _).
  split_and!.
  - apply (Hfound {["authorization" := "Bearer t"]}); reflexivity.
  - apply Hsame; [discriminate|reflexivity|reflexivity].
  - apply (Hmissing {["Authorization" := "Bearer t"]}); [reflexivity|reflexivity|].
    vm_compute. intros H. repeat (apply elem_of_cons in H as [H|H]; [discriminate H|]).
    by apply elem_of_nil in H.
  - apply (Hcall Sample.whoAmIPlaced (Sample.start Sample.withLowerAuthorization));
      reflexivity.
Defined.

(** ** Further properties of the router *)

Import Shape.

(** *** What a compiled pattern matches *)

Section Matching.

Lemma append_assoc_char a c b :
  (a +:+ String c EmptyString) +:+ b = a +:+ String c b.
Proof.
  induction a as [|d a IH]; [done|].
  rewrite !append_cons. by rewrite IH.
Qed.

Lemma append_assoc a b c : (a +:+ b) +:+ c = a +:+ (b +:+ c).
Proof.
  induction a as [|d a IH]; [done|].
  rewrite !append_cons. by rewrite IH.
Qed.

Lemma matchGroup_sound k acc s caps :
  RegExp.matchGroup k acc s = Some caps →
  ∃ v rest caps',
    s = v +:+ rest ∧ validValue v = true ∧ k rest = Some caps' ∧
    caps = (acc +:+ v) :: caps'.
Proof.
  revert acc caps. induction s as [|c r IH]; intros acc caps; simpl; [done|].
  destruct (Ascii.eqb c "/") eqn:Hc; [done|].
  destruct (RegExp.matchGroup k (acc +:+ String c EmptyString) r) as [found|] eqn:Hlong.
  - intros [= <-]. apply IH in Hlong as (v & rest & caps' & -> & Hv & Hk & ->).
    exists (String c v), rest, caps'. split_and!; [done| |done|].
    + simpl. rewrite Hc. simpl. by destruct v.
    + by rewrite append_assoc_char.
  - destruct (k r) as [caps'|] eqn:Hk; [|done]. intros [= <-].
    exists (String c EmptyString), r, caps'. split_and!; [done| |done..].
    simpl. by rewrite Hc.
Qed.

Lemma matchNodes_sound nodes s caps :
  RegExp.matchNodes nodes s = Some caps →
  Forall (λ v, validValue v = true) caps ∧ fill nodes caps = Some s.
Proof.
  revert s caps. induction nodes as [|[c|] rest IH]; intros s caps; simpl.
  - destruct s; [|done]. by intros [= <-].
  - destruct s as [|d r]; [done|].
    destruct (Ascii.eqb_spec c d) as [->|]; [|done].
    intros [Hv Hf]%IH. split; [done|]. by rewrite Hf.
  - intros (v & r & caps' & -> & Hv & [Hvs Hf]%IH & ->)%matchGroup_sound.
    split; [by constructor|]. by rewrite Hf.
Qed.

End Matching.

(** *** Templates of slash-separated segments *)

Section Segments.

Import JSString.

Lemma literalChar_inv c :
  literalChar c = true →
  RegExp.isPlain c = true ∧ Ascii.eqb c ":" = false ∧ Ascii.eqb c "/" = false.
Proof.
  unfold literalChar. intros [[Hp Hc%negb_true_iff]%andb_true_iff Hs%negb_true_iff]%andb_true_iff.
  done.
Qed.

Lemma replaceKeysFrom_cons b c r :
  replaceKeysFrom b (String c r)
  = if b && isAlnum c then replaceKeysFrom true r
    else if startsKey c r then "([^/]+)" +:+ replaceKeysFrom true r
    else String c (replaceKeysFrom false r).
Proof. reflexivity. Qed.

Lemma replaceKeysFrom_solidus b r :
  replaceKeysFrom b (String "/" r) = String "/" (replaceKeysFrom false r).
Proof. simpl. by rewrite andb_false_r. Qed.

Lemma replaceKeysFrom_literal text r :
  allChars literalChar text = true →
  replaceKeysFrom false (text +:+ r) = text +:+ replaceKeysFrom false r.
Proof.
  induction text as [|c text IH]; [done|]. simpl.
  intros [(_ & Hc & _)%literalChar_inv Ht]%andb_true_iff.
  rewrite !append_cons. simpl.
  by rewrite (startsKey_not_colon _ _ Hc), IH.
Qed.

Lemma replaceKeysFrom_name name r :
  allChars isAlnum name = true →
  replaceKeysFrom true (name +:+ r) = replaceKeysFrom true r.
Proof.
  induction name as [|c name IH]; [done|]. simpl.
  intros [Hc Ht]%andb_true_iff. rewrite append_cons. simpl.
  by rewrite Hc, IH.
Qed.

Lemma replaceKeysFrom_placeholder b name r :
  wellFormed (Placeholder name) = true →
  replaceKeysFrom b (String ":" (name +:+ r))
  = "([^/]+)" +:+ replaceKeysFrom true r.
Proof.
  destruct name as [|c name]; [done|]. intros Hwf.
  assert (Hc : isAlnum c = true).
  { simpl in Hwf. by apply andb_true_iff in Hwf as [? _]. }
  rewrite append_cons, replaceKeysFrom_cons.
  change (isAlnum ":") with false. rewrite andb_false_r.
  replace (startsKey ":" (String c (name +:+ r))) with true
    by (rewrite startsKey_head; simpl; by rewrite Hc).
  cbv beta iota. rewrite <- append_cons.
  by rewrite <- (replaceKeysFrom_name (String c name) r Hwf).
Qed.

Lemma replaceKeysFrom_render b segs :
  Forall (λ seg, wellFormed seg = true) segs →
  replaceKeysFrom b (render segs) = sourceOf segs.
Proof.
  intros Hwf. revert b. induction Hwf as [|[text|name] rest Hseg _ IH]; intros b.
  - done.
  - simpl render. rewrite replaceKeysFrom_solidus.
    by rewrite replaceKeysFrom_literal, IH.
  - simpl render. rewrite replaceKeysFrom_solidus.
    by rewrite replaceKeysFrom_placeholder, IH.
Qed.

Lemma parseNodes_plain c r :
  RegExp.isPlain c = true →
  RegExp.parseNodes (String c r)
  = ns ← RegExp.parseNodes r; Some (RegExp.Lit c :: ns).
Proof.
  destruct c as [[] [] [] [] [] [] [] []]; intros H; try discriminate H;
    reflexivity.
Qed.

Lemma parseNodes_literal text r :
  allChars literalChar text = true →
  RegExp.parseNodes (text +:+ r)
  = ns ← RegExp.parseNodes r;
    Some ((RegExp.Lit <$> list_ascii_of_string text) ++ ns).
Proof.
  induction text as [|c text IH].
  - intros _. rewrite append_nil. by destruct (RegExp.parseNodes r).
  - intros Hall. simpl in Hall.
    apply andb_true_iff in Hall as [(Hp & _)%literalChar_inv Ht].
    rewrite append_cons, (parseNodes_plain _ _ Hp), (IH Ht).
    by destruct (RegExp.parseNodes r).
Qed.

Lemma parseNodes_sourceOf segs :
  Forall (λ seg, wellFormed seg = true) segs →
  RegExp.parseNodes (sourceOf segs +:+ "$") = Some (nodesOf segs).
Proof.
  induction 1 as [|[text|name] rest Hseg _ IH]; [done| |].
  - simpl sourceOf. rewrite append_cons, (parseNodes_plain "/") by done.
    rewrite append_assoc, (parseNodes_literal _ _ Hseg), IH. done.
  - simpl sourceOf. rewrite append_cons, (parseNodes_plain "/") by done.
    rewrite append_assoc.
    change (RegExp.parseNodes ("([^/]+)" +:+ (sourceOf rest +:+ "$")))
      with (ns ← RegExp.parseNodes (sourceOf rest +:+ "$");
            Some (RegExp.Group :: ns)).
    by rewrite IH.
Qed.

Lemma matchNodes_lit a nodes d r :
  RegExp.matchNodes (RegExp.Lit a :: nodes) (String d r)
  = if Ascii.eqb a d then RegExp.matchNodes nodes r else None.
Proof. reflexivity. Qed.

Lemma matchNodes_literal text nodes s :
  RegExp.matchNodes ((RegExp.Lit <$> list_ascii_of_string text) ++ nodes) (text +:+ s)
  = RegExp.matchNodes nodes s.
Proof.
  induction text as [|c text IH]; [done|].
  rewrite append_cons. simpl. by rewrite Ascii.eqb_refl.
Qed.

Lemma fill_literal text nodes values :
  fill ((RegExp.Lit <$> list_ascii_of_string text) ++ nodes) values
  = (λ s, text +:+ s) <$> fill nodes values.
Proof.
  induction text as [|c text IH].
  - simpl. by destruct (fill nodes values).
  - change (fill ((RegExp.Lit <$> list_ascii_of_string (String c text)) ++ nodes) values)
      with (String c <$> fill ((RegExp.Lit <$> list_ascii_of_string text) ++ nodes) values).
    rewrite IH. by destruct (fill nodes values).
Qed.

(** After the segments of a template, the pattern goes on with a solidus
    or ends. *)
Lemma nodesOf_solidus segs c r :
  Ascii.eqb c "/" = false → RegExp.matchNodes (nodesOf segs) (String c r) = None.
Proof.
  intros Hc. destruct segs as [|[text|name] rest]; [done| |];
    simpl nodesOf; by rewrite matchNodes_lit, Ascii.eqb_sym, Hc.
Qed.

Lemma matchGroup_exact k acc v rest caps :
  (∀ c r, Ascii.eqb c "/" = false → k (String c r) = None) →
  validValue v = true →
  k rest = Some caps →
  RegExp.matchGroup k acc (v +:+ rest) = Some ((acc +:+ v) :: caps).
Proof.
  intros Hk Hv Hrest. revert acc. induction v as [|c v IH]; intros acc; [done|].
  simpl in Hv. apply andb_true_iff in Hv as [Hc%negb_true_iff Hv].
  rewrite append_cons. simpl. rewrite Hc.
  destruct v as [|d v].
  - rewrite append_nil.
    assert (Hstop : RegExp.matchGroup k (acc +:+ String c EmptyString) rest = None).
    { destruct rest as [|d r]; [done|]. simpl.
      destruct (Ascii.eqb d "/") eqn:Hd; [done|]. by rewrite Hk in Hrest. }
    by rewrite Hstop, Hrest.
  - rewrite (IH Hv). by rewrite append_assoc_char.
Qed.

Lemma matchNodes_complete segs values path :
  Forall (λ seg, wellFormed seg = true) segs →
  Forall (λ v, validValue v = true) values →
  fill (nodesOf segs) values = Some path →
  RegExp.matchNodes (nodesOf segs) path = Some values.
Proof.
  intros Hwf. revert values path.
  induction Hwf as [|[text|name] rest Hseg _ IH]; intros values path Hvalues.
  - destruct values; [|done]. by intros [= <-].
  - simpl nodesOf. simpl fill. rewrite fill_literal.
    destruct (fill (nodesOf rest) values) as [p|] eqn:Hf; [|done].
    intros [= <-]. simpl. rewrite matchNodes_literal. by apply IH.
  - simpl nodesOf. simpl fill.
    destruct Hvalues as [|v vs Hv Hvs]; [done|].
    destruct (fill (nodesOf rest) vs) as [p|] eqn:Hf; [|done].
    intros [= <-]. simpl.
    rewrite (matchGroup_exact _ EmptyString v p vs); [done| |done|by apply IH].
    intros c r Hc. by apply nodesOf_solidus.
Qed.

Lemma convertToRegExp_render segs :
  Forall (λ seg, wellFormed seg = true) segs →
  convertToRegExp (render segs)
  = Some (RegExp.mk ("^" +:+ sourceOf segs +:+ "$") (nodesOf segs)).
Proof.
  intros Hwf. unfold convertToRegExp, replaceKeys, RegExp.new.
  rewrite (replaceKeysFrom_render _ _ Hwf).
  change ("^" +:+ sourceOf segs +:+ "$")
    with (String "^" (sourceOf segs +:+ "$")).
  cbv beta iota. by rewrite (parseNodes_sourceOf _ Hwf).
Qed.

(** X2. A template of slash-separated segments, each a literal without
    operators or a placeholder [:name], compiles to the pattern of its
    segments, and that pattern matches exactly the paths that have the
    literals in place and a non-empty text without a solidus for every
    placeholder; the captures are those texts in template order. *)
Theorem segments_compile_and_match (segs : list Segment) :
  Forall (λ seg, wellFormed seg = true) segs →
  ∃ re,
    convertToRegExp (render segs) = Some re ∧
    RegExp.nodes re = nodesOf segs ∧
    ∀ path values,
      RegExp.match_ path re = Some (path :: values) ↔
      Forall (λ v, validValue v = true) values ∧
      fill (nodesOf segs) values = Some path.
Proof.
  intros Hwf.
  exists (RegExp.mk ("^" +:+ sourceOf segs +:+ "$") (nodesOf segs)).
  split_and!; [|done|].
  - by apply convertToRegExp_render.
  - intros path values. unfold RegExp.match_. simpl. split.
    + destruct (RegExp.matchNodes _ _) as [caps|] eqn:Hm; simpl; [|done].
      intros [= <-]. by apply matchNodes_sound.
    + intros [Hv Hf]. by rewrite (matchNodes_complete _ _ _ Hwf Hv Hf).
Qed.

End Segments.

(** The template [/users/:id/posts/:postId] and the path
    [/users/42/posts/7]. *)
Lemma segments_compile_and_match_witness :
  ∃ re,
    convertToRegExp "/users/:id/posts/:postId" = Some re ∧
    RegExp.match_ "/users/42/posts/7" re = Some ["/users/42/posts/7"; "42"; "7"].
Proof.
  destruct (segments_compile_and_match
              [Literal "users"; Placeholder "id"; Literal "posts"; Placeholder "postId"])
    as (re & Hcompile & _ & Hmatch).
  - repeat constructor.
  - exists re. split; [exact Hcompile|].
    apply Hmatch. split; [repeat constructor|reflexivity].
Defined.

(** *** Serialized text read back *)

Section RoundTrip.

Lemma parseChars_quoteOne c r :
  JSON.parseChars (JSON.quoteOne c +:+ r)
  = '(v, rest) ← JSON.parseChars r; Some (String c v, rest).
Proof.
  destruct c as [[] [] [] [] [] [] [] []]; reflexivity.
Qed.

Lemma parseChars_quoteBody s rest :
  JSON.parseChars (JSON.quoteBody s +:+ String JSON.quoteChar rest) = Some (s, rest).
Proof.
  induction s as [|c s IH]; [done|].
  simpl JSON.quoteBody. rewrite append_assoc, parseChars_quoteOne, IH. done.
Qed.

Lemma length_append a b :
  String.length (a +:+ b) = String.length a + String.length b.
Proof.
  induction a as [|c a IH]; [done|]. rewrite append_cons. simpl. by rewrite IH.
Qed.

Lemma quote_append s rest :
  JSON.quote s +:+ rest
  = String JSON.quoteChar (JSON.quoteBody s +:+ String JSON.quoteChar rest).
Proof. unfold JSON.quote. rewrite append_cons. by rewrite append_assoc. Qed.

Lemma parseValue_string fuel s rest :
  JSON.parseValue (S fuel) (JSON.quote s +:+ rest) = Some (JS.Str s, rest).
Proof.
  rewrite quote_append. simpl. by rewrite parseChars_quoteBody.
Qed.

Lemma fieldText_append kv rest :
  fieldText kv +:+ rest
  = String JSON.quoteChar
      (JSON.quoteBody kv.1
         +:+ String JSON.quoteChar (String ":" (JSON.quote kv.2 +:+ rest))).
Proof.
  unfold fieldText. rewrite append_assoc, quote_append.
  by rewrite (append_cons ":"), append_nil, append_cons.
Qed.

Lemma parseMembers_quoted fuel acc r :
  JSON.parseMembers (S fuel) acc (String JSON.quoteChar r)
  = '(k, r1) ← JSON.parseChars r;
    match JSON.skipWs r1 with
    | String ":" r2 =>
        '(v, r3) ← JSON.parseValue fuel r2;
        match JSON.skipWs r3 with
        | String "," r4 => JSON.parseMembers fuel (JS.setProp acc k v) r4
        | String "}" r4 => Some (JS.setProp acc k v, r4)
        | _ => None
        end
    | _ => None
    end.
Proof. reflexivity. Qed.

Lemma parseMembers_field fuel acc kv rest :
  JSON.parseMembers (S (S fuel)) acc (fieldText kv +:+ rest)
  = match JSON.skipWs rest with
    | String "," r => JSON.parseMembers (S fuel) (JS.setProp acc kv.1 (JS.Str kv.2)) r
    | String "}" r => Some (JS.setProp acc kv.1 (JS.Str kv.2), r)
    | _ => None
    end.
Proof.
  rewrite fieldText_append, parseMembers_quoted, parseChars_quoteBody.
  change (JSON.parseValue (S fuel) (JSON.quote kv.2 +:+ rest)
          ≫= (λ '(v, r3),
                match JSON.skipWs r3 with
                | String "," r4 =>
                    JSON.parseMembers (S fuel) (JS.setProp acc kv.1 v) r4
                | String "}" r4 => Some (JS.setProp acc kv.1 v, r4)
                | _ => None
                end) = match JSON.skipWs rest with
    | String "," r => JSON.parseMembers (S fuel) (JS.setProp acc kv.1 (JS.Str kv.2)) r
    | String "}" r => Some (JS.setProp acc kv.1 (JS.Str kv.2), r)
    | _ => None
    end).
  by rewrite parseValue_string.
Qed.

Lemma fieldsTail_cons kv fields close :
  fieldsTail (kv :: fields) close
  = String "," (fieldText kv +:+ fieldsTail fields close).
Proof. reflexivity. Qed.

Lemma parseMembers_fields fields fuel acc kv rest :
  length fields < fuel →
  JSON.parseMembers (S fuel) acc
    (fieldText kv +:+ fieldsTail fields (String "}" rest))
  = Some (foldl (λ a q, JS.setProp a q.1 (JS.Str q.2))
            (JS.setProp acc kv.1 (JS.Str kv.2)) fields,
          rest).
Proof.
  revert fuel acc kv. induction fields as [|q fields IH]; intros fuel acc kv Hfuel;
    (destruct fuel as [|fuel]; [by apply Nat.nlt_0_r in Hfuel|]);
    rewrite parseMembers_field.
  - done.
  - rewrite fieldsTail_cons.
    change (JSON.skipWs (String "," ?x)) with (String "," x). cbv beta iota.
    apply IH. simpl in Hfuel. by apply Nat.succ_lt_mono.
Qed.

Lemma flat_map_fields fields :
  flat_map
    (λ p : string * JS.Value,
       if JSON.omitted p.2 then []
       else [JSON.quote p.1 +:+ ":" +:+ JSON.text p.2]) (stringFields fields)
  = fieldText <$> fields.
Proof. induction fields as [|kv fields IH]; [done|]. simpl. by rewrite IH. Qed.

Lemma fold_left_join parts acc close :
  fold_left (λ a q, a +:+ "," +:+ q) parts acc +:+ close
  = acc +:+ foldr (λ q t, "," +:+ q +:+ t) close parts.
Proof.
  revert acc. induction parts as [|q parts IH]; intros acc; [done|].
  simpl fold_left. rewrite IH. simpl foldr. by rewrite !append_assoc.
Qed.

Lemma stringifyObject_fields kv fields :
  JSON.stringifyObject (stringFields (kv :: fields))
  = String "{" (fieldText kv +:+ fieldsTail fields "}").
Proof.
  unfold JSON.stringifyObject.
  change (JSON.text (JS.Object (stringFields (kv :: fields))))
    with ("{" +:+ JSString.joinComma
                    (flat_map
                       (λ p : string * JS.Value,
                          if JSON.omitted p.2 then []
                          else [JSON.quote p.1 +:+ ":" +:+ JSON.text p.2])
                       (stringFields (kv :: fields))) +:+ "}").
  rewrite flat_map_fields. simpl JSString.joinComma.
  rewrite fold_left_join. rewrite (append_cons "{"), append_nil.
  unfold fieldsTail. by rewrite foldr_fmap.
Qed.

Lemma fieldsTail_length fields close :
  length fields ≤ String.length (fieldsTail fields close).
Proof.
  induction fields as [|kv fields IH]; [apply Nat.le_0_l|].
  rewrite fieldsTail_cons. simpl. rewrite length_append. lia.
Qed.

Lemma ownProp_fresh (acc : list (string * JS.Value)) k :
  k ∉ acc.*1 → JS.ownProp acc k = None.
Proof.
  induction acc as [|[k' v'] acc IH]; [done|]. simpl.
  intros [Hne Hnot]%not_elem_of_cons.
  apply String.eqb_neq in Hne. rewrite Hne. by apply IH.
Qed.

Lemma setProp_fresh acc k v :
  k ∉ acc.*1 → JS.arrayIndex k = None → JS.setProp acc k v = acc ++ [(k, v)].
Proof. intros Hk Hi. unfold JS.setProp. by rewrite ownProp_fresh, Hi. Qed.

Lemma foldl_setProp fields acc :
  NoDup (acc.*1 ++ fields.*1) →
  Forall (λ k, JS.arrayIndex k = None) fields.*1 →
  foldl (λ a q, JS.setProp a q.1 (JS.Str q.2)) acc fields
  = acc ++ stringFields fields.
Proof.
  revert acc. induction fields as [|kv fields IH]; intros acc Hnd Hix.
  - by rewrite app_nil_r.
  - simpl. apply NoDup_app in Hnd as (Hacc & Hfresh & Hfields).
    apply Forall_cons in Hix as [Hk Hix].
    rewrite setProp_fresh.
    + rewrite IH; [by rewrite <- app_assoc| |done].
      rewrite fmap_app. simpl. rewrite <- app_assoc. simpl.
      apply NoDup_app. split_and!; [done| |done].
      intros k Hin. by apply Hfresh.
    + intros Hin. apply (Hfresh _ Hin). apply list_elem_of_here.
    + done.
Qed.

(** A serialized object of strings with distinct keys, none of them an
    array index, reads back as itself. *)
Lemma parse_stringFields fields :
  NoDup fields.*1 →
  Forall (λ k, JS.arrayIndex k = None) fields.*1 →
  JSON.parse (JSON.stringifyObject (stringFields fields))
  = Some (JS.Object (stringFields fields)).
Proof.
  intros Hnd Hix. destruct fields as [|kv fields]; [done|].
  rewrite stringifyObject_fields. unfold JSON.parse.
  set (body := fieldText kv +:+ fieldsTail fields "}").
  replace (2 * String.length (String "{" body) + 2)
    with (S (S (2 * String.length body + 2))) by (simpl; lia).
  assert (Hfuel : length fields < 2 * String.length body + 2).
  { subst body. rewrite length_append.
    pose proof (fieldsTail_length fields "}"). lia. }
  subst body. rewrite fieldText_append.
  change (JSON.parseValue (S ?f) (String "{" (String JSON.quoteChar ?r)))
    with ('(ps, r') ← JSON.parseMembers f [] (String JSON.quoteChar r);
          Some (JS.Object ps, r')).
  rewrite <- fieldText_append.
  rewrite (parseMembers_fields fields _ [] kv EmptyString Hfuel).
  apply Forall_cons in Hix as [Hk Hix].
  rewrite (setProp_fresh [] _ _ (not_elem_of_nil _) Hk), app_nil_l.
  by rewrite (foldl_setProp fields [(kv.1, JS.Str kv.2)]).
Qed.

End RoundTrip.

(** *** The answers of the error translator and of the handlers *)

(** X3. For an error that is an [Error] object with a string name and a
    string message (an instance of the classes of this file or any other
    one), the body of the answer of [errorHandler] is JSON text that reads
    back as the object with the two properties [message] and [error]: the
    message of the error (or [Internal Server Error] when that is empty)
    and the name of the error. *)
Theorem errorHandler_body_reads_back (e : Error) :
  JSON.parse (Wire.body (errorHandler e))
  = Some (JS.Object [("message", JS.Str (answerMessage e));
                     ("error", JS.Str (errorName e))]).
Proof.
  apply (parse_stringFields [("message", answerMessage e); ("error", errorName e)]).
  - simpl. apply NoDup_cons.
    split; [by intros ?%list_elem_of_singleton|apply NoDup_singleton].
  - by repeat constructor.
Qed.

Section Answers.

Context {W : Type}.

(** X5. When the handler returns a response without data, [invokeHandler]
    answers with the status code of that response unchanged and with a body
    that reads back as the object holding the message. *)
Theorem handler_response_normalized (h : Handler W) (st : State W)
    args ev w (res : Response.t) :
  bindParams (parameters h) (event st) [] = Returned args →
  call h args (event st) (world st) = (ev, w, Returned res) →
  Response.data res = JS.Undefined →
  ∃ wire,
    invokeHandler h st
    = (mkState ev w (trace st ++ [CallHandler (name h) args]), Returned wire) ∧
    Wire.statusCode wire = Response.statusCode res ∧
    JSON.parse (Wire.body wire)
    = Some (JS.Object [("message", JS.Str (Response.message res))]).
Proof.
  intros Hargs Hcall Hdata. eexists. split_and!.
  - unfold invokeHandler, bind. rewrite Hargs.
    by rewrite (perform_eq _ _ _ _ _ _ Hcall).
  - done.
  - simpl. unfold Response.bodyProps. rewrite Hdata.
    apply (parse_stringFields [("message", Response.message res)]);
      [apply NoDup_singleton|by repeat constructor].
Qed.

End Answers.

Lemma handler_response_normalized_witness :
  ∃ wire,
    invokeHandler Sample.getUsers (Sample.start (Sample.get "/users/"))
    = (mkState (Sample.get "/users/") tt [CallHandler "getUsers" []], Returned wire) ∧
    Wire.statusCode wire = 200%Z ∧
    JSON.parse (Wire.body wire) = Some (JS.Object [("message", JS.Str "Get all users")]).
Proof.
  apply (handler_response_normalized Sample.getUsers
           (Sample.start (Sample.get "/users/")) [] (Sample.get "/users/") tt
           (Response.mk 200 "Get all users" JS.Undefined));
    reflexivity.
Defined.

(** *** Binding of the body *)

Section BodyBinding.

Lemma ownProp_fields fields key v :
  NoDup fields.*1 → (key, v) ∈ fields →
  JS.ownProp (stringFields fields) key = Some (JS.Str v).
Proof.
  induction fields as [|[k' v'] fields IH]; intros Hnd Hin.
  - by apply elem_of_nil in Hin.
  - apply NoDup_cons in Hnd as [Hfresh Hnd]. simpl.
    apply elem_of_cons in Hin as [[= -> ->]|Hin].
    + by rewrite String.eqb_refl.
    + destruct (String.eqb_spec key k') as [->|]; [|by apply IH].
      destruct Hfresh. by apply (list_elem_of_fmap_2 fst) in Hin.
Qed.

Lemma lookupProp_fields fields key v :
  NoDup fields.*1 → (key, v) ∈ fields →
  JS.lookupProp (stringFields fields) key = JS.Str v.
Proof. intros Hnd Hin. unfold JS.lookupProp. by rewrite (ownProp_fields _ _ v). Qed.

Lemma lookupProp_missing fields key :
  key ∉ fields.*1 → JS.lookupProp (stringFields fields) key = JS.inherited key.
Proof.
  intros Hnot. unfold JS.lookupProp. rewrite ownProp_fresh; [done|].
  unfold stringFields. by rewrite <- list_fmap_compose.
Qed.

Lemma inherited_other key : key ∉ JS.objectPrototype → JS.inherited key = JS.Undefined.
Proof. intros H. unfold JS.inherited. by rewrite bool_decide_eq_false_2. Qed.

(** X6. When the body of the request is the JSON text of an object of
    strings with distinct keys, none of them an array index, a [Body]
    parameter with a key is bound to the value stored under that key; when
    the object has no such key, it is bound to what a plain object gives
    for a key it does not hold, which is [undefined] unless the key names
    a member of [Object.prototype]; and a [Body] parameter without a key is
    bound to the whole object, its properties in the order of the text. *)
Theorem body_field_bound (ev : Event.t) (i : nat) (key : string)
    (fields : list (string * string)) :
  NoDup fields.*1 →
  Forall (λ k, JS.arrayIndex k = None) fields.*1 →
  key ≠ EmptyString →
  Event.body ev = Some (JSON.stringifyObject (stringFields fields)) →
  (∀ v, (key, v) ∈ fields →
     bindParam ev (mkParam i "body" (Some key)) = Returned (JS.Str v)) ∧
  (key ∉ fields.*1 →
     bindParam ev (mkParam i "body" (Some key)) = Returned (JS.inherited key) ∧
     (key ∉ JS.objectPrototype →
      bindParam ev (mkParam i "body" (Some key)) = Returned JS.Undefined)) ∧
  bindParam ev (mkParam i "body" None)
  = Returned (JS.Object (stringFields fields)).
Proof.
  intros Hnd Hix Hkey Hbody.
  assert (Htruthy : truthy (Event.body ev)
                    = Some (JSON.stringifyObject (stringFields fields))).
  { rewrite Hbody. destruct fields as [|kv fields]; [done|].
    by rewrite stringifyObject_fields. }
  assert (Hbind : bindParam ev (mkParam i "body" (Some key))
                  = Returned (JS.lookupProp (stringFields fields) key)).
  { unfold bindParam. simpl. rewrite Htruthy, (parse_stringFields _ Hnd Hix).
    by destruct key. }
  split; [|split].
  - intros v Hin. by rewrite Hbind, (lookupProp_fields _ _ _ Hnd Hin).
  - intros Hnot. rewrite Hbind, lookupProp_missing by done. split; [done|].
    intros Hother. by rewrite inherited_other.
  - unfold bindParam. simpl. by rewrite Htruthy, (parse_stringFields _ Hnd Hix).
Qed.


End BodyBinding.

Lemma body_field_bound_witness :
  bindParam
    (Sample.post "/users/" (Some (JSON.stringifyObject [("name", JS.Str "Ada")])))
    (mkParam 0 "body" (Some "name"))
  = Returned (JS.Str "Ada").
Proof.
  apply (proj1 (body_field_bound
                  (Sample.post "/users/"
                     (Some (JSON.stringifyObject [("name", JS.Str "Ada")])))
                  0 "name" [("name", "Ada")]
                  ltac:(apply NoDup_singleton) ltac:(by repeat constructor)
                  ltac:(discriminate) eq_refl)).
  apply list_elem_of_here.
Defined.


(** *** The argument list *)

Section Arguments.

Lemma length_setIndex args i v :
  length (setIndex args i v) = Nat.max (length args) (S i).
Proof.
  unfold setIndex. destruct (Nat.ltb_spec i (length args)).
  - rewrite length_insert. lia.
  - rewrite !length_app, length_replicate. simpl. lia.
Qed.

Lemma setIndex_lookup args i v : setIndex args i v !! i = Some v.
Proof.
  unfold setIndex. destruct (Nat.ltb_spec i (length args)).
  - by apply list_lookup_insert_eq.
  - rewrite lookup_app_r by done.
    rewrite lookup_app_r by (rewrite length_replicate; lia).
    rewrite length_replicate. by replace (i - length args - (i - length args)) with 0 by lia.
Qed.

Lemma setIndex_lookup_other args i j v :
  j ≠ i →
  setIndex args i v !! j
  = if (j <? length args)%nat then args !! j
    else if (j <? i)%nat then Some JS.Undefined else None.
Proof.
  intros Hne. unfold setIndex.
  destruct (Nat.ltb_spec i (length args)) as [Hi|Hi].
  - rewrite list_lookup_insert_ne by done.
    destruct (Nat.ltb_spec j (length args)) as [Hj|Hj]; [done|].
    rewrite (lookup_ge_None_2 _ _ Hj).
    destruct (Nat.ltb_spec j i); [lia|done].
  - destruct (Nat.ltb_spec j (length args)) as [Hj|Hj].
    + by rewrite lookup_app_l.
    + rewrite lookup_app_r by done.
      destruct (Nat.ltb_spec j i) as [Hji|Hji].
      * rewrite lookup_app_l by (rewrite length_replicate; lia).
        apply lookup_replicate_2. lia.
      * apply lookup_ge_None_2.
        rewrite length_app, length_replicate. simpl. lia.
Qed.

Lemma bindParams_positions ps ev args0 args :
  bindParams ps ev args0 = Returned args →
  NoDup (index <$> ps) →
  length args = Nat.max (length args0) (arity ps) ∧
  (∀ p v, p ∈ ps → bindParam ev p = Returned v → args !! index p = Some v) ∧
  (∀ j, j ∉ index <$> ps →
     args !! j = if (j <? length args0)%nat then args0 !! j
                 else if (j <? length args)%nat then Some JS.Undefined else None).
Proof.
  revert args0. induction ps as [|p ps IH]; intros args0; simpl.
  - intros [= <-] _. split_and!.
    + by rewrite Nat.max_0_r.
    + intros p v Hin. by apply elem_of_nil in Hin.
    + intros j _. destruct (Nat.ltb_spec j (length args0)); [done|].
      by apply lookup_ge_None_2.
  - destruct (bindParam ev p) as [e|v0] eqn:Hp; [done|].
    intros Hbind [Hfresh Hnd]%NoDup_cons.
    destruct (IH _ Hbind Hnd) as (Hlen & Hown & Hother).
    rewrite length_setIndex in Hlen, Hother.
    split_and!.
    + unfold arity in *. simpl. lia.
    + intros q v [->|Hin]%elem_of_cons Hq; [|by apply Hown].
      rewrite Hp in Hq. injection Hq as <-.
      rewrite (Hother _ Hfresh), setIndex_lookup.
      destruct (Nat.ltb_spec (index p) (Nat.max (length args0) (S (index p))));
        [done|lia].
    + intros j [Hne Hnot]%not_elem_of_cons.
      rewrite (Hother _ Hnot), (setIndex_lookup_other _ _ _ _ Hne).
      repeat (match goal with
              | |- context [(?a <? ?b)%nat] => destruct (Nat.ltb_spec a b)
              end); try done; lia.
Qed.

(** X8. When the descriptors write distinct positions and the binding goes
    through, the argument list is as long as the largest position plus
    one, the position of each descriptor holds the value bound for it, and
    every other position below the length holds [undefined]. *)
Theorem bound_arguments (ps : list ParamMeta) (ev : Event.t) (args : list JS.Value) :
  NoDup (index <$> ps) →
  bindParams ps ev [] = Returned args →
  length args = arity ps ∧
  (∀ p v, p ∈ ps → bindParam ev p = Returned v → args !! index p = Some v) ∧
  (∀ j, j < length args → j ∉ index <$> ps → args !! j = Some JS.Undefined).
Proof.
  intros Hnd Hbind.
  destruct (bindParams_positions _ _ _ _ Hbind Hnd) as (Hlen & Hown & Hother).
  split_and!; [done..|].
  intros j Hj Hnot. rewrite (Hother _ Hnot). simpl.
  by destruct (Nat.ltb_spec j (length args)); [|lia].
Qed.

End Arguments.

(** A handler with parameters at positions 2 and 0: position 1 is left
    [undefined]. *)
Lemma bound_arguments_witness :
  let ev := Event.mk "GET" "/search" None None (Some {["q" := "fox"]}) None in
  let ps := [mkParam 2 "query" (Some "q"); mkParam 0 "headers" (Some "Accept")] in
  let args := [JS.Undefined; JS.Undefined; JS.Str "fox"] in
  bindParams ps ev [] = Returned args ∧
  length args = arity ps ∧
  args !! 2 = Some (JS.Str "fox") ∧
  args !! 1 = Some JS.Undefined.
Proof.
  intros ev ps args.
  destruct (bound_arguments ps ev args) as (Hlen & Hown & Hother);
    [|reflexivity|].
  { simpl. apply NoDup_cons.
    split; [by intros ?%list_elem_of_singleton|apply NoDup_singleton]. }
  split_and!.
  - reflexivity.
  - exact Hlen.
  - apply (Hown (mkParam 2 "query" (Some "q"))); [apply list_elem_of_here|reflexivity].
  - apply Hother; [vm_compute; lia|].
    simpl. intros H.
    repeat (apply elem_of_cons in H as [H|H]; [discriminate H|]).
    by apply elem_of_nil in H.
Defined.

(** *** Registration *)

Section MoreRegistration.

Context {W Ctx : Type}.

Implicit Types (r : Router W Ctx) (st : State W) (context : Ctx).

Lemma addMethod_appends prefix r (m : Method W Ctx) r' :
  addMethod prefix r m = Some r' →
  ∃ static dynamic,
    staticRoutes r' = staticRoutes r ++ static ∧
    dynamicRoutes r' = dynamicRoutes r ++ dynamic ∧
    middlewares r' = middlewares r ∧
    logger r' = logger r ∧
    length static + length dynamic
    = (if String.eqb (m_name m) "constructor" then 0 else 1) ∧
    Forall (λ route, sr_method route = m_method m ∧
                     sr_path route = prefix +:+ m_path m) static.
Proof.
  unfold addMethod. destruct (String.eqb (m_name m) "constructor").
  - intros [= <-]. exists [], []. by rewrite !app_nil_r.
  - destruct (JSString.includes (m_path m) ":").
    + destruct (convertToRegExp _) as [pattern|]; simpl; [|done].
      intros [= <-]. eexists [], [_]. by rewrite app_nil_r.
    + intros [= <-]. eexists [_], []. rewrite app_nil_r.
      split_and!; try done. by repeat constructor.
Qed.

Lemma addRoute_appends (c : Controller W Ctx) r r' :
  addRoute c r = Some r' →
  ∃ static dynamic,
    staticRoutes r' = staticRoutes r ++ static ∧
    dynamicRoutes r' = dynamicRoutes r ++ dynamic ∧
    middlewares r' = middlewares r ∧
    logger r' = logger r ∧
    length static + length dynamic
    = length (filter (λ m, m_name m ≠ "constructor") (methods c)) ∧
    Forall (λ route, ∃ m, m ∈ methods c ∧ sr_method route = m_method m ∧
                          sr_path route = controllerPath c +:+ m_path m) static.
Proof.
  unfold addRoute. generalize (controllerPath c) as prefix. intros prefix.
  revert r. induction (methods c) as [|m ms IH]; intros r; simpl.
  - intros [= <-]. exists [], []. by rewrite !app_nil_r.
  - destruct (addMethod prefix r m) as [r1|] eqn:Hm; simpl.
    + intros (s2 & d2 & Hs2 & Hd2 & Hm2 & Hl2 & Hn2 & Hp2)%IH.
      apply addMethod_appends in Hm as (s1 & d1 & Hs1 & Hd1 & Hm1 & Hl1 & Hn1 & Hp1).
      exists (s1 ++ s2), (d1 ++ d2).
      rewrite Hs2, Hd2, Hm2, Hl2, Hs1, Hd1, Hm1, Hl1, <- !app_assoc.
      split_and!; try done.
      * rewrite !length_app, filter_cons.
        destruct (String.eqb_spec (m_name m) "constructor") as [Heq|Hne].
        -- rewrite decide_False by (by intros ?). lia.
        -- rewrite decide_True by done. simpl. lia.
      * apply Forall_app. split.
        -- eapply Forall_impl; [exact Hp1|]. intros route [? ?].
           exists m. split; [apply list_elem_of_here|done].
        -- eapply Forall_impl; [exact Hp2|]. intros route (m' & Hin & ?).
           exists m'. split; [by apply list_elem_of_further|done].
    + clear IH. intros Hnone. exfalso. revert Hnone.
      induction ms as [|? ? IHms]; simpl; [done|exact IHms].
Qed.

(** X9. Registering a controller only appends: the routes registered
    before stay where they were, in order, ahead of the new ones; the
    middlewares and the logger are untouched; one route is added for each
    property of the controller other than [constructor]; and every static
    route added stands under the prefix of the controller followed by the
    path of its method. *)
Theorem addRoute_only_appends (c : Controller W Ctx) r r' :
  addRoute c r = Some r' →
  ∃ static dynamic,
    staticRoutes r' = staticRoutes r ++ static ∧
    dynamicRoutes r' = dynamicRoutes r ++ dynamic ∧
    middlewares r' = middlewares r ∧
    logger r' = logger r ∧
    length static + length dynamic
    = length (filter (λ m, m_name m ≠ "constructor") (methods c)) ∧
    Forall (λ route, ∃ m, m ∈ methods c ∧ sr_method route = m_method m ∧
                          sr_path route = controllerPath c +:+ m_path m) static.
Proof. apply addRoute_appends. Qed.

Lemma findStatic_app (routes more : list (StaticRoute W Ctx)) httpMethod path :
  findStatic (routes ++ more) httpMethod path
  = match findStatic routes httpMethod path with
    | Some route => Some route
    | None => findStatic more httpMethod path
    end.
Proof.
  unfold findStatic. induction routes as [|route routes IH]; simpl; [done|].
  by destruct (_ && _).
Qed.

(** X10. A request that a static route answers is answered in the same way
    after any further controller is registered: a static route registered
    earlier is never shadowed by a route registered later. *)
Theorem earlier_static_route_wins (c : Controller W Ctx) r r' context st route :
  addRoute c r = Some r' →
  findStatic (staticRoutes r) (Event.httpMethod (event st)) (Event.path (event st))
  = Some route →
  findStatic (staticRoutes r') (Event.httpMethod (event st)) (Event.path (event st))
  = Some route ∧
  handleRequest r' context st = handleRequest r context st.
Proof.
  intros (s & d & Hs & Hd & Hm & Hl & _)%addRoute_appends Hfind.
  assert (Hfind' : findStatic (staticRoutes r') (Event.httpMethod (event st))
                     (Event.path (event st)) = Some route).
  { by rewrite Hs, findStatic_app, Hfind. }
  split; [done|].
  unfold handleRequest, tryBlock, runLogger. by rewrite Hl, Hm, Hfind, Hfind'.
Qed.


Lemma bind_assoc {A B C} (m : M W A) (f : A → M W B) (g : B → M W C) st :
  bind (bind m f) g st = bind m (λ a, bind (f a) g) st.
Proof. unfold bind. by destruct (m st) as [st1 [e|a]]. Qed.

Lemma bind_ext {A B} (m : M W A) (f g : A → M W B) st :
  (∀ a st', f a st' = g a st') → bind m f st = bind m g st.
Proof. intros H. unfold bind. by destruct (m st) as [st1 [e|a]]. Qed.

Lemma runMiddlewares_app (ms1 ms2 : list (Middleware W Ctx)) i context st :
  runMiddlewares (ms1 ++ ms2) i context st
  = bind (runMiddlewares ms1 i context)
      (λ _, runMiddlewares ms2 (i + length ms1) context) st.
Proof.
  revert i st. induction ms1 as [|m ms1 IH]; intros i st; simpl.
  - unfold bind, ret. by rewrite Nat.add_0_r.
  - unfold bind. destruct (perform _ _ st) as [st1 [e|[]]]; [done|].
    rewrite IH. unfold bind.
    by replace (S i + length ms1) with (i + S (length ms1)) by lia.
Qed.

(** X12. A middleware added with [use] runs last, after the logger and
    after every middleware registered before it, and only when none of
    them threw; a logger set with [useLogger] runs first whenever it is set
    and takes the place of the logger set before. *)
Theorem use_runs_last r context st (m l : Middleware W Ctx) :
  preamble (use m r) context st
  = bind (preamble r context)
      (λ _, perform (CallMiddleware (length (middlewares r))) (m context)) st ∧
  preamble (useLogger l r) context st
  = bind (perform CallLogger (l context))
      (λ _, runMiddlewares (middlewares r) 0 context) st.
Proof.
  split; [|done].
  assert (Hlast : ∀ st1,
            runMiddlewares (middlewares r ++ [m]) 0 context st1
            = bind (runMiddlewares (middlewares r) 0 context)
                (λ _, perform (CallMiddleware (length (middlewares r))) (m context))
                st1).
  { intros st1. rewrite runMiddlewares_app. apply bind_ext. intros _ st2.
    simpl. unfold bind, ret. by destruct (perform _ _ st2) as [st3 [e|[]]]. }
  unfold preamble. rewrite bind_assoc.
  change (runLogger (use m r) context) with (runLogger r context).
  apply bind_ext. intros _ st1. apply Hlast.
Qed.

End MoreRegistration.

Lemma addRoute_only_appends_witness :
  ∃ static dynamic,
    staticRoutes Sample.userRouter = [] ++ static ∧
    dynamicRoutes Sample.userRouter = [] ++ dynamic ∧
    length static + length dynamic = 2.
Proof.
  destruct (addRoute_only_appends Sample.UserController createRouter Sample.userRouter)
    as (s & d & Hs & Hd & _ & _ & Hn & _); [reflexivity|].
  exists s, d. split_and!; [exact Hs|exact Hd|exact Hn].
Defined.

(** [GET /users/] is answered by the static route of the user controller,
    before and after the item controller is registered. *)
Lemma earlier_static_route_wins_witness :
  handleRequest
    (mkRouter (staticRoutes Sample.userRouter) [Sample.itemRoute] [] None) tt
    (Sample.start (Sample.get "/users/"))
  = handleRequest Sample.userRouter tt (Sample.start (Sample.get "/users/")).
Proof.
  apply (earlier_static_route_wins Sample.ItemController Sample.userRouter
           (mkRouter (staticRoutes Sample.userRouter) [Sample.itemRoute] [] None)
           tt (Sample.start (Sample.get "/users/"))
           (mkStatic "GET" "/users/" Sample.getUsers []));
    reflexivity.
Defined.


(** *** Errors of the handler and the order of the calls *)

Section Outcomes.

Context {W Ctx : Type}.

Implicit Types (r : Router W Ctx) (st : State W) (context : Ctx).

(** X13. An error the handler throws is not translated: once the guards of
    the matched route are through and the arguments are bound, a throwing
    handler makes the promise of [handleRequest] reject with that very
    error, whatever its class, and nothing is logged by the error
    translator. *)
Theorem handler_error_rejects r context st st0 st1 st2 guards h args ev w e :
  preamble r context st = (st0, Returned tt) →
  lookup r (Event.httpMethod (event st)) (Event.path (event st)) st0
  = (st1, Returned (Some (guards, h))) →
  processGuards guards 0 context st1 = (st2, Returned true) →
  bindParams (parameters h) (event st2) [] = Returned args →
  call h args (event st2) (world st2) = (ev, w, Threw e) →
  handleRequest r context st
  = (mkState ev w (trace st2 ++ [CallHandler (name h) args]), Rejected e).
Proof.
  intros Hpre Hlook Hguards Hargs Hcall.
  rewrite (handleRequest_finish _ _ _ _ Hpre).
  unfold finish, resolve, bind, ret. rewrite Hlook, Hguards. simpl.
  rewrite Hargs. unfold settle. by rewrite Hcall.
Qed.

Lemma runMiddlewares_calls (ms : list (Middleware W Ctx)) i context st st'
    (res : Result unit) :
  runMiddlewares ms i context st = (st', res) →
  ∃ k, k ≤ length ms ∧ trace st' = trace st ++ (CallMiddleware <$> seq i k).
Proof.
  revert i st. induction ms as [|m ms IH]; intros i st; simpl.
  - intros [= <- _]. exists 0. by rewrite app_nil_r.
  - unfold bind, perform.
    destruct (m context (event st) (world st)) as [[ev w] [e|[]]].
    + intros [= <- _]. exists 1. split; [lia|done].
    + intros (k & Hk & Htr)%IH. exists (S k). split; [lia|].
      rewrite Htr. simpl. by rewrite <- app_assoc.
Qed.

Lemma preamble_calls r context st st0 (res : Result unit) :
  preamble r context st = (st0, res) →
  ∃ n, n ≤ length (middlewares r) ∧ trace st0 = trace st ++ preambleCalls r n.
Proof.
  unfold preamble, bind, runLogger, preambleCalls, perform, ret.
  destruct (logger r) as [l|].
  - destruct (l context _ _) as [[ev w] [e|[]]].
    + intros [= <- _]. exists 0. simpl. split; [lia|done].
    + intros (k & Hk & Htr)%runMiddlewares_calls. exists k. split; [done|].
      rewrite Htr. simpl. by rewrite <- app_assoc.
  - intros (k & Hk & Htr)%runMiddlewares_calls. by exists k.
Qed.

(** X14. In every dispatch the application is called in one order: the
    logger if set, the middlewares from the first on, the guards of one
    route from the first on, and then at most one thing more, the handler
    or the error log of the error translator. No handler is called twice,
    none after an error was logged, and no guard after the handler. *)
Theorem dispatch_call_order r context st :
  ∃ n g tail,
    n ≤ length (middlewares r) ∧
    trace (handleRequest r context st).1
    = trace st ++ preambleCalls r n ++ (CallGuard <$> seq 0 g) ++ tail ∧
    (tail = [] ∨ (∃ e, tail = [ConsoleError e]) ∨
     ∃ name args, tail = [CallHandler name args]).
Proof.
  destruct (preamble r context st) as [st0 [e|[]]] eqn:Hpre;
    pose proof (preamble_calls _ _ _ _ _ Hpre) as (n & Hn & Htr).
  - exists n, 0, [ConsoleError e]. split_and!; [done| |right; left; by eexists].
    rewrite (handleRequest_caught _ _ _ st0 e).
    + simpl. by rewrite Htr, <- app_assoc.
    + rewrite tryBlock_split. unfold bind. by rewrite Hpre.
  - rewrite (handleRequest_finish _ _ _ _ Hpre).
    unfold finish, resolve, bind.
    destruct (lookup r _ _ st0) as [st1 [e|[[guards h]|]]] eqn:Hl;
      apply lookup_trace in Hl; simpl.
    + exists n, 0, [ConsoleError e].
      split_and!; [done| |right; left; by eexists].
      by rewrite Hl, Htr, <- app_assoc.
    + destruct (processGuards guards 0 context st1) as [st2 [e|b]] eqn:Hg;
        apply processGuards_calls in Hg as [g Hg]; simpl.
      * exists n, g, [ConsoleError e].
        split_and!; [done| |right; left; by eexists].
        by rewrite Hg, Hl, Htr, <- !app_assoc.
      * destruct (bindParams _ _ _) as [e|args]; simpl.
        -- exists n, g, []. split_and!; [done| |by left].
           by rewrite Hg, Hl, Htr, app_nil_r, <- !app_assoc.
        -- unfold settle. destruct (call h args _ _) as [[ev w] res]. simpl.
           exists n, g, [CallHandler (name h) args].
           split_and!; [done| |right; right; by eexists _, _].
           by rewrite Hg, Hl, Htr, <- !app_assoc.
    + exists n, 0, [ConsoleError (newError UndefinedPathError None)].
      split_and!; [done| |right; left; by eexists].
      by rewrite Hl, Htr, <- app_assoc.
Qed.

End Outcomes.

(** A handler that throws [NotFoundError]: the promise rejects with it
    instead of being fulfilled with a 404. *)
Lemma handler_error_rejects_witness :
  let missing : Handler Sample.World :=
    mkHandler "getUser" []
      (λ args ev w, (ev, w, Threw (newError NotFoundError None))) in
  handleRequest (mkRouter [mkStatic "GET" "/users/7" missing []] [] [] None) tt
    (Sample.start (Sample.get "/users/7"))
  = (mkState (Sample.get "/users/7") tt [CallHandler "getUser" []],
     Rejected (newError NotFoundError None)).
Proof.
  intros missing.
  apply (handler_error_rejects
           (mkRouter [mkStatic "GET" "/users/7" missing []] [] [] None) tt
           (Sample.start (Sample.get "/users/7"))
           (Sample.start (Sample.get "/users/7"))
           (Sample.start (Sample.get "/users/7"))
           (Sample.start (Sample.get "/users/7"))
           [] missing [] (Sample.get "/users/7") tt
           (newError NotFoundError None));
    reflexivity.
Defined.

(** *** Path parameters and unknown paths *)

Section Unbound.

Context {W Ctx : Type}.

(** X15. Whatever template a pattern was compiled from and whatever it
    matched, [extractParams] returns the empty mapping, so that a
    parameter bound with [Params] and a key gets nothing of the path once
    the request carries that mapping: it is bound to what an empty object
    gives for the key, which is [undefined] unless the key names a member
    of [Object.prototype]. *)
Theorem no_path_parameter_extracted (template : string) (re : RegExp.t)
    (match_ : list string) (ev : Event.t) (i : nat) (key : string) :
  convertToRegExp template = Some re →
  extractParams re match_ = ∅ ∧
  bindParam (Event.setPathParameters (extractParams re match_) ev)
    (mkParam i "params" (Some key))
  = Returned (if String.eqb key EmptyString then JS.ofMap ∅ else JS.inherited key) ∧
  (key ≠ EmptyString → key ∉ JS.objectPrototype →
   bindParam (Event.setPathParameters (extractParams re match_) ev)
     (mkParam i "params" (Some key))
   = Returned JS.Undefined).
Proof.
  intros Hre. rewrite (extractParams_empty _ _ _ Hre). split; [done|].
  assert (Hbind : bindParam (Event.setPathParameters ∅ ev)
                    (mkParam i "params" (Some key))
                  = Returned (if String.eqb key EmptyString then JS.ofMap ∅
                              else JS.inherited key)).
  { unfold bindParam. simpl. by destruct key. }
  split; [done|]. intros Hkey%String.eqb_neq Hother.
  by rewrite Hbind, Hkey, inherited_other.
Qed.

(** X16. When the logger and the middlewares are through, no static route
    is registered for the method and path of the request and the pattern of
    no dynamic route matches its path, the error translator logs one
    [UndefinedPathError] and the answer is its 404; no guard and no handler
    is called. *)
Theorem unknown_path_answered_404 (r : Router W Ctx) (context : Ctx)
    (st st0 : State W) :
  preamble r context st = (st0, Returned tt) →
  findStatic (staticRoutes r) (Event.httpMethod (event st)) (Event.path (event st))
  = None →
  (∀ route, route ∈ dynamicRoutes r →
     RegExp.match_ (Event.path (event st)) (dr_path route) = None) →
  handleRequest r context st
  = (mkState (event st0) (world st0)
       (trace st ++ preambleCalls r (length (middlewares r))
          ++ [ConsoleError (newError UndefinedPathError None)]),
     Fulfilled (Wire.mk 404
       (JSON.stringifyObject
          [("message", JS.Str (defaultMessage UndefinedPathError));
           ("error", JS.Str "UndefinedPathError")]))).
Proof.
  intros Hpre Hstatic Hdynamic.
  rewrite (undefined_path_404 _ _ _ _ Hpre Hstatic Hdynamic).
  unfold record. by rewrite (preamble_done _ _ _ _ Hpre), <- app_assoc.
Qed.

End Unbound.

Lemma no_path_parameter_extracted_witness :
  extractParams (dr_path Sample.itemRoute) ["/users/42"; "42"] = ∅ ∧
  bindParam
    (Event.setPathParameters
       (extractParams (dr_path Sample.itemRoute) ["/users/42"; "42"])
       (Sample.get "/users/42"))
    (mkParam 0 "params" (Some "id"))
  = Returned JS.Undefined.
Proof.
  destruct (no_path_parameter_extracted "/users/:id" (dr_path Sample.itemRoute)
              ["/users/42"; "42"] (Sample.get "/users/42") 0 "id")
    as (Hempty & _ & Hbound); [reflexivity|].
  split; [exact Hempty|]. apply Hbound; [discriminate|].
  intros H. repeat (apply elem_of_cons in H as [H|H]; [discriminate H|]).
  by apply elem_of_nil in H.
Defined.

Lemma unknown_path_answered_404_witness :
  handleRequest Sample.secureRouter tt (Sample.start (Sample.get "/nope"))
  = (mkState (Sample.get "/nope") tt
       [CallLogger; CallMiddleware 0; CallMiddleware 1;
        ConsoleError (newError UndefinedPathError None)],
     Fulfilled (Wire.mk 404
       (JSON.stringifyObject
          [("message", JS.Str (defaultMessage UndefinedPathError));
           ("error", JS.Str "UndefinedPathError")]))).
Proof.
  apply (unknown_path_answered_404 Sample.secureRouter tt
           (Sample.start (Sample.get "/nope"))
           (mkState (Sample.get "/nope") tt
              [CallLogger; CallMiddleware 0; CallMiddleware 1]));
    [reflexivity|reflexivity|].
  intros route H. by apply elem_of_nil in H.
Defined.

(** *** Binding that cannot throw *)

(** X17. Only a [Body] parameter can make the binding throw: a list of
    descriptors without one is bound for every request, whatever its body,
    headers, query and path parameters. *)
Theorem binding_throws_only_for_body (ps : list ParamMeta) (ev : Event.t)
    (args0 : list JS.Value) :
  Forall (λ p, type p ≠ "body") ps →
  ∃ args, bindParams ps ev args0 = Returned args.
Proof.
  intros Hps. revert args0. induction Hps as [|p ps Hp _ IH]; intros args0; simpl.
  - by eexists.
  - assert (Hone : ∃ v, bindParam ev p = Returned v).
    { unfold bindParam. apply String.eqb_neq in Hp. rewrite Hp.
      repeat case_match; by eexists. }
    destruct Hone as [v ->]. apply IH.
Qed.

Lemma binding_throws_only_for_body_witness :
  ∃ args,
    bindParams [mkParam 0 "query" (Some "q"); mkParam 1 "headers" None;
                mkParam 2 "cookies" None]
      (Sample.post "/users/" (Some "{bad")) [] = Returned args.
Proof.
  apply binding_throws_only_for_body.
  repeat constructor; discriminate.
Defined.

(** *** The decorators *)

Section DecoratorProperties.

Import Decorators.

Context {W Ctx : Type}.

Implicit Types (s : Store W Ctx).

Lemma applyParam_parameters d target propertyKey i s :
  parameters (applyParam d target propertyKey i s)
  = <[(target, propertyKey) :=
        default [] (parameters s !! (target, propertyKey)) ++ [descriptor d i]]>
      (parameters s) ∧
  method (applyParam d target propertyKey i s) = method s ∧
  path (applyParam d target propertyKey i s) = path s ∧
  guards (applyParam d target propertyKey i s) = guards s.
Proof. by destruct d. Qed.

(** X18. Parameter decorators applied to a method add their descriptors to
    the ones recorded for that method, in the order of application, each
    with the position it was given and the type of its decorator
    ([body], [query], [params], [headers]); the descriptors of every other
    method and all other metadata stay as they were. *)
Theorem param_decorators_accumulate (ds : list (ParamDecorator * nat))
    (target : positive) (propertyKey : string) s :
  let s' := applyParams ds target propertyKey s in
  (ds ≠ [] →
   parameters s' !! (target, propertyKey)
   = Some (default [] (parameters s !! (target, propertyKey))
           ++ ((λ d, descriptor d.1 d.2) <$> ds))) ∧
  (∀ other, other ≠ (target, propertyKey) →
     parameters s' !! other = parameters s !! other) ∧
  method s' = method s ∧ path s' = path s ∧ guards s' = guards s.
Proof.
  unfold applyParams. revert s. induction ds as [|[d i] ds IH]; intros s; simpl.
  - by split_and!.
  - destruct (applyParam_parameters d target propertyKey i s)
      as (Hp & Hm & Hpath & Hg).
    destruct (IH (applyParam d target propertyKey i s)) as (Hown & Hother & Hm' & Hpath' & Hg').
    split_and!; try congruence.
    + intros _. destruct ds as [|d' ds].
      * simpl. rewrite Hp. by rewrite lookup_insert_eq.
      * rewrite Hown by done. rewrite Hp, lookup_insert_eq. simpl.
        by rewrite <- app_assoc.
    + intros other Hne. rewrite Hother by done. rewrite Hp.
      by rewrite lookup_insert_ne.
Qed.

Lemma UseGuard_guards (g : Guard W Ctx) target propertyKey s :
  guards (UseGuard g target propertyKey s)
  = <[(target, propertyKey) :=
        default [] (guards s !! (target, propertyKey)) ++ [g]]> (guards s).
Proof. done. Qed.

(** X19. [UseGuard] decorators applied to a method add their guards to the
    ones recorded for that method in the order of application, and leave
    the guards of every other method and all other metadata as they were;
    a method decorator applied after another one on the same method
    replaces both its method and its path, and touches nothing else: not
    the method or the path of another method, not the path of the class,
    no guard and no parameter descriptor. *)
Theorem route_decorators (gs : list (Guard W Ctx)) (target : positive)
    (propertyKey : string) s :
  let s' := applyGuards gs target propertyKey s in
  (gs ≠ [] →
   guards s' !! (target, propertyKey)
   = Some (default [] (guards s !! (target, propertyKey)) ++ gs)) ∧
  (∀ other, other ≠ (target, propertyKey) → guards s' !! other = guards s !! other) ∧
  method s' = method s ∧ path s' = path s ∧ parameters s' = parameters s ∧
  (∀ verb1 path1 verb2 path2,
     let s2 := defineRoute verb2 path2 target propertyKey
                 (defineRoute verb1 path1 target propertyKey s) in
     method s2 !! (target, propertyKey) = Some verb2 ∧
     path s2 !! (target, Some propertyKey) = Some path2 ∧
     path s2 !! (target, None) = path s !! (target, None) ∧
     (∀ other, other ≠ (target, propertyKey) → method s2 !! other = method s !! other) ∧
     (∀ other, other ≠ (target, Some propertyKey) → path s2 !! other = path s !! other) ∧
     guards s2 = guards s ∧
     parameters s2 = parameters s).
Proof.
  split_and!.
  - unfold applyGuards. revert s. induction gs as [|g gs IH]; intros s Hne; [done|].
    simpl. destruct gs as [|g' gs].
    + simpl. by rewrite lookup_insert_eq.
    + rewrite IH by done. rewrite UseGuard_guards, lookup_insert_eq. simpl.
      by rewrite <- app_assoc.
  - unfold applyGuards. revert s. induction gs as [|g gs IH]; intros s other Hne; [done|].
    simpl. rewrite IH by done. rewrite UseGuard_guards. by rewrite lookup_insert_ne.
  - unfold applyGuards. revert s. induction gs as [|g gs IH]; intros s; [done|].
    simpl. by rewrite IH.
  - unfold applyGuards. revert s. induction gs as [|g gs IH]; intros s; [done|].
    simpl. by rewrite IH.
  - unfold applyGuards. revert s. induction gs as [|g gs IH]; intros s; [done|].
    simpl. by rewrite IH.
  - intros verb1 path1 verb2 path2. simpl. split_and!.
    + by rewrite lookup_insert_eq.
    + by rewrite lookup_insert_eq.
    + by rewrite !lookup_insert_ne.
    + intros other Hne. by rewrite !lookup_insert_ne.
    + intros other Hne. by rewrite !lookup_insert_ne.
    + done.
    + done.
Qed.

End DecoratorProperties.

(** [createUser(@Body('name') name, @Headers() headers)], decorated from
    the last parameter to the first. *)
Lemma param_decorators_accumulate_witness :
  Decorators.parameters
    (Decorators.applyParams
       [(Decorators.ByHeaders None, 1); (Decorators.ByBody (Some "name"), 0)]
       1%positive "createUser" (Decorators.empty (W := unit) (Ctx := unit)))
    !! (1%positive, "createUser")
  = Some [mkParam 1 "headers" None; mkParam 0 "body" (Some "name")].
Proof.
  apply (proj1 (param_decorators_accumulate
                  [(Decorators.ByHeaders None, 1); (Decorators.ByBody (Some "name"), 0)]
                  1%positive "createUser" Decorators.empty)).
  discriminate.
Defined.

Lemma route_decorators_witness :
  Decorators.guards
    (Decorators.applyGuards [Sample.allow; Sample.deny] 1%positive "secureEndpoint"
       Decorators.empty)
    !! (1%positive, "secureEndpoint")
  = Some [Sample.allow; Sample.deny].
Proof.
  apply (proj1 (route_decorators [Sample.allow; Sample.deny] 1%positive
                  "secureEndpoint" Decorators.empty)).
  discriminate.
Defined.

(** *** The lookup of the descriptors of a bound method *)

Section Lookup.

Context {W Ctx : Type}.

Implicit Types s : Decorators.Store W Ctx.

Lemma boundName_fresh methodName : Decorators.boundName methodName ≠ methodName.
Proof.
  intros H. apply (f_equal String.length) in H. unfold Decorators.boundName in H.
  change (S (S (S (S (S (S (String.length methodName)))))) = String.length methodName)
    in H.
  lia.
Qed.

Lemma getParameters_ext s s' chain propertyKey :
  (∀ target, Decorators.parameters s' !! (target, propertyKey)
             = Decorators.parameters s !! (target, propertyKey)) →
  Decorators.getParameters s' chain propertyKey
  = Decorators.getParameters s chain propertyKey.
Proof. intros H. induction chain as [|o rest IH]; simpl; [done|]. by rewrite H, IH. Qed.

Lemma boundParameters_empty chain methodName :
  Decorators.boundParameters (Decorators.empty (W := W) (Ctx := Ctx)) chain methodName
  = [].
Proof.
  unfold Decorators.boundParameters.
  induction chain as [|o rest IH]; simpl; [done|]. by rewrite lookup_empty.
Qed.

(** X23. What the parameter decorators record for a method is recorded
    under the name of the method, whatever the target, and [invokeHandler]
    looks under the name of the bound function: the descriptors it reads
    for the bound method are the ones it would read had none of the
    parameters of the method been decorated. When no other metadata was
    defined there are none, and the handler is called without arguments
    for every request. *)
Theorem decorated_parameters_not_read (ds : list (Decorators.ParamDecorator * nat))
    (target : positive) (methodName : string) s (chain : list positive) :
  Decorators.boundParameters (Decorators.applyParams ds target methodName s)
    chain methodName
  = Decorators.boundParameters s chain methodName ∧
  Decorators.boundParameters
    (Decorators.applyParams ds target methodName
       (Decorators.empty (W := W) (Ctx := Ctx))) chain methodName
  = [] ∧
  (∀ (h : Handler W) (st : State W),
     parameters h
     = Decorators.boundParameters
         (Decorators.applyParams ds target methodName
            (Decorators.empty (W := W) (Ctx := Ctx)))
         chain methodName →
     trace (invokeHandler h st).1 = trace st ++ [CallHandler (name h) []]).
Proof.
  assert (Hsame : ∀ s0,
            Decorators.boundParameters (Decorators.applyParams ds target methodName s0)
              chain methodName
            = Decorators.boundParameters s0 chain methodName).
  { intros s0. unfold Decorators.boundParameters. apply getParameters_ext. intros o.
    unfold Decorators.applyParams.
    revert s0. induction ds as [|[d i] rest IH]; intros s0; simpl; [done|].
    rewrite IH.
    assert (Hkey : (target, methodName) ≠ (o, Decorators.boundName methodName)).
    { intros [= _ H]. by apply (boundName_fresh methodName). }
    destruct d; simpl; by rewrite lookup_insert_ne. }
  split; [apply Hsame|].
  split; [by rewrite Hsame, boundParameters_empty|].
  intros h st Hps. apply invokeHandler_calls.
  by rewrite Hps, Hsame, boundParameters_empty.
Qed.

End Lookup.

(** The README's [createUser(@Body('name') name)]: nothing is read for the
    bound method. *)
Lemma decorated_parameters_not_read_witness :
  Decorators.boundParameters Sample.readmeStore
    (Sample.boundChain Sample.boundCreateUser) "createUser" = [] ∧
  trace (invokeHandler Sample.createUser
           (Sample.start (Sample.post "/users/"
              (Some (JSON.stringifyObject [("name", JS.Str "Ada")]))))).1
  = [CallHandler "createUser" []].
Proof.
  destruct (decorated_parameters_not_read (W := Sample.World) (Ctx := Sample.Context)
              [(Decorators.ByBody (Some "name"), 0)] Sample.userPrototype "createUser"
              Decorators.empty (Sample.boundChain Sample.boundCreateUser))
    as (_ & Hnone & Hcall).
  split; [exact Hnone|].
  apply (Hcall Sample.createUser). reflexivity.
Defined.

(** *** From registration to dispatch *)

Section EndToEnd.

Context {W Ctx : Type}.

Implicit Types (r : Router W Ctx) (st : State W) (context : Ctx).

Lemma includes_here (t : string) : JSString.includes (String ":" t) ":" = true.
Proof. by destruct t. Qed.

Lemma includes_later c (t : string) :
  JSString.includes t ":" = true → JSString.includes (String c t) ":" = true.
Proof. intros H. simpl. rewrite H. apply orb_true_r. Qed.

Lemma includes_append a b :
  JSString.includes b ":" = true → JSString.includes (a +:+ b) ":" = true.
Proof.
  intros H. induction a as [|c a IH]; [done|].
  rewrite append_cons. by apply includes_later.
Qed.

Lemma render_placeholder name segs :
  render (Placeholder name :: segs) = String "/" (String ":" (name +:+ render segs)).
Proof. reflexivity. Qed.

Lemma render_literal text segs :
  render (Literal text :: segs) = String "/" (text +:+ render segs).
Proof. reflexivity. Qed.

Lemma includes_render segs name :
  Placeholder name ∈ segs → JSString.includes (render segs) ":" = true.
Proof.
  induction segs as [|seg segs IH]; intros Hin; [by apply elem_of_nil in Hin|].
  apply elem_of_cons in Hin as [<-|Hin].
  - rewrite render_placeholder. apply includes_later, includes_here.
  - destruct seg as [text|name'].
    + rewrite render_literal. apply includes_later, includes_append. by apply IH.
    + rewrite render_placeholder. apply includes_later, includes_here.
Qed.

(** X20. A method whose path is a template of slash-separated segments with
    at least one placeholder, registered on an empty router, is reached by
    every request whose path has the shape of the template, whatever the
    method of the request: the lookup selects its route, its handler is the
    one the [try] block returns, and the path parameters of the request are
    set to the empty mapping. *)
Theorem dynamic_route_reached (segs : list Segment) (values : list string)
    (name verb : string) (h : Handler W) context st placeholder :
  name ≠ "constructor" →
  Forall (λ seg, wellFormed seg = true) segs →
  Placeholder placeholder ∈ segs →
  Forall (λ v, validValue v = true) values →
  fill (nodesOf segs) values = Some (Event.path (event st)) →
  ∃ r,
    addRoute (mkController EmptyString [mkMethod name verb (render segs) [] h])
      createRouter = Some r ∧
    staticRoutes r = [] ∧
    tryBlock r (Event.httpMethod (event st)) (Event.path (event st)) context st
    = (mkState (Event.setPathParameters ∅ (event st)) (world st) (trace st),
       Returned h).
Proof.
  intros Hname Hwf Hin Hvalues Hfill.
  pose proof (convertToRegExp_render segs Hwf) as Hre.
  eexists. split_and!.
  - unfold addRoute, addMethod. simpl.
    apply String.eqb_neq in Hname. rewrite Hname.
    rewrite append_nil, (includes_render _ _ Hin), Hre. reflexivity.
  - done.
  - unfold tryBlock, bind, runLogger, ret. simpl.
    unfold RegExp.match_. simpl.
    rewrite (matchNodes_complete _ _ _ Hwf Hvalues Hfill). simpl.
    rewrite bool_decide_eq_true_2 by done.
    by rewrite (extractParams_empty (render segs) _ _ Hre).
Qed.

(** X21. A static route just registered answers the requests for its own
    method and path, unless a static route registered before it has the
    same method and path. *)
Theorem new_static_route_reachable r r' prefix (m : Method W Ctx) :
  m_name m ≠ "constructor" →
  JSString.includes (m_path m) ":" = false →
  addMethod prefix r m = Some r' →
  findStatic (staticRoutes r) (m_method m) (prefix +:+ m_path m) = None →
  findStatic (staticRoutes r') (m_method m) (prefix +:+ m_path m)
  = Some (mkStatic (m_method m) (prefix +:+ m_path m) (m_handler m) (m_guards m)).
Proof.
  intros Hname%String.eqb_neq Hstatic. unfold addMethod.
  rewrite Hname, Hstatic. intros [= <-] Hnone. simpl.
  rewrite findStatic_app, Hnone. unfold findStatic. simpl.
  by rewrite !String.eqb_refl.
Qed.

End EndToEnd.

Lemma dynamic_route_reached_witness :
  ∃ r,
    addRoute (mkController EmptyString
                [mkMethod "getItem" "GET" "/users/:id" [] Sample.getItem])
      createRouter = Some r ∧
    staticRoutes r = [] ∧
    tryBlock r "DELETE" "/users/42" tt (Sample.start (Event.mk "DELETE" "/users/42" None None None None))
    = (mkState (Event.mk "DELETE" "/users/42" None None None (Some ∅)) tt [],
       Returned Sample.getItem).
Proof.
  apply (dynamic_route_reached [Literal "users"; Placeholder "id"] ["42"]
           "getItem" "GET" Sample.getItem tt
           (Sample.start (Event.mk "DELETE" "/users/42" None None None None)) "id").
  - discriminate.
  - repeat constructor.
  - apply list_elem_of_further, list_elem_of_here.
  - repeat constructor.
  - reflexivity.
Defined.

Lemma new_static_route_reachable_witness :
  findStatic (staticRoutes Sample.profileRouter) "GET" ("/users/:id" +:+ "/profile")
  = Some (mkStatic "GET" ("/users/:id" +:+ "/profile") Sample.getProfile []).
Proof.
  apply (new_static_route_reachable createRouter Sample.profileRouter "/users/:id"
           (mkMethod "getProfile" "GET" "/profile" [] Sample.getProfile));
    (reflexivity || discriminate).
Defined.
